(** * Enviro Monitor push server: risk engine, alert de-duplication, registry

    A shallow embedding of [server.js] (the Expo push backend) and of the
    parts of the older Firebase backend that differ from it, with the
    properties of the risk classifier, of the per-subscriber sweep and of the
    two registration routes.

    Conventions.
    - A JavaScript number that reaches the code comes out of [JSON.parse]: it
      is never NaN, and it is taken to be finite.  Every finite double is a
      rational, and [<], [>] on doubles agree with the order of the rationals
      they denote.  Numbers are therefore values of [Q], compared with
      [Qle_bool].
    - A template literal that embeds a number is kept as its three parts
      (text, number with the way it is printed, text) instead of one string.
    - [userStore] is a JavaScript [Map]: iteration follows insertion order,
      so it is an association list.  Its values are objects; the sweep holds
      a reference to the object while the entry may be deleted, so objects
      live in a heap and the map stores references.
    - Request handlers are not interleaved with a running sweep.
    - A value of a request body is converted to a string only where a log
      line or the weather query interpolates it.  For an object that
      conversion may throw; whether it does is part of the value. *)

From Stdlib Require Import QArith.
From stdpp Require Import base option list strings gmap.

Local Open Scope string_scope.
Local Open Scope list_scope.

(** ** JavaScript values as they arrive in a JSON request body *)

Inductive JsVal : Type :=
| JUndefined
| JNull
| JBool (b : bool)
| JNum (q : Q)
| JStr (s : string)
| JObj (printable : bool).
  (* an object or an array.  The code only tests it for truthiness or
     interpolates it into a string; [printable] tells whether the conversion
     to a string returns.  It does for [{}] and [[1, 2]]; for an object such
     as [{"toString": 1}] it throws a TypeError. *)

(** [!!v]: JavaScript truthiness. *)
Definition truthy (v : JsVal) : bool :=
  match v with
  | JUndefined | JNull => false
  | JBool b => b
  | JNum q => negb (Qeq_bool q 0)
  | JStr s => negb (String.eqb s "")
  | JObj _ => true
  end.

(** [`${v}`] returns.  Every primitive prints. *)
Definition prints (v : JsVal) : bool :=
  match v with
  | JObj printable => printable
  | _ => true
  end.

(** [v == null]. *)
Definition nullish (v : JsVal) : bool :=
  match v with
  | JUndefined | JNull => true
  | _ => false
  end.

(** [v ?? d]. *)
Definition coalesce (v d : JsVal) : JsVal := if nullish v then d else v.

(** ** Risk thresholds *)

Module RISK_LIMITS.
Definition PM25_WARNING : Q := 12.
Definition PM25_SEVERE : Q := 35.
Definition PM25_DANGER : Q := 55.
Definition UV_WARNING : Q := 3.
Definition UV_DANGER : Q := 6.
Definition TEMP_WARNING : Q := 35.
Definition TEMP_DANGER : Q := 40.
Definition VISIBILITY_WARNING : Q := 5.
Definition VISIBILITY_DANGER : Q := 2.
Definition WIND_WARNING : Q := 40.
Definition WIND_DANGER : Q := 70.
End RISK_LIMITS.

(** [a > b] and [a < b] on numbers. *)
Definition num_gt (a b : Q) : bool := negb (Qle_bool a b).
Definition num_lt (a b : Q) : bool := negb (Qle_bool b a).

(** ** The weather response, as far as [evaluateRisk] reads it *)

Record AirQuality : Type := { pm2_5 : option Q }.

Record Current : Type := {
  air_quality : option AirQuality;
  uv : option Q;
  temp_c : option Q;
  vis_km : option Q;
  wind_kph : option Q
}.

Record WeatherData : Type := { current : option Current }.

(** ** Alerts *)

(** How a number is printed inside a message. *)
Inductive NumText : Type :=
| ToFixed1 (x : Q)     (* x.toFixed(1) *)
| Interpolated (x : Q). (* ${x} *)

Record Message : Type := {
  before : string;
  number : NumText;
  after : string
}.

Record Alert : Type := {
  type : string;
  severity : string;
  message : Message
}.

(** ** Risk engine *)

(** [o ?-> f] stands for [o?.f], optional chaining: a missing or null member
    is [None]. *)
Definition chain {A B : Type} (o : option A) (f : A -> option B) : option B :=
  match o with
  | Some a => f a
  | None => None
  end.

Notation "o ?-> f" := (chain o f) (at level 40, left associativity).

Definition evaluateRisk (data : option WeatherData) : list Alert :=
  let pm25 := data ?-> current ?-> air_quality ?-> pm2_5 in
  let uv := data ?-> current ?-> uv in
  let temp := data ?-> current ?-> temp_c in
  let visibility := data ?-> current ?-> vis_km in
  let wind := data ?-> current ?-> wind_kph in
  match pm25, uv, temp, visibility with
  | Some pm25, Some uv, Some temp, Some visibility =>
      (if num_gt pm25 RISK_LIMITS.PM25_DANGER then
         [ {| type := "AirQuality_danger"; severity := "danger";
              message := {| before := "🫁 Hazardous air — PM2.5 at ";
                            number := ToFixed1 pm25;
                            after := " µg/m³. Stay indoors." |} |} ]
       else if num_gt pm25 RISK_LIMITS.PM25_SEVERE then
         [ {| type := "AirQuality_severe"; severity := "severe";
              message := {| before := "😷 Unhealthy air — PM2.5 at ";
                            number := ToFixed1 pm25;
                            after := " µg/m³. Wear a mask outdoors." |} |} ]
       else [])
      ++
      (if num_gt uv RISK_LIMITS.UV_DANGER then
         [ {| type := "UV_danger"; severity := "danger";
              message := {| before := "☀️ Extreme UV index (";
                            number := Interpolated uv;
                            after := "). Avoid direct sun, use SPF 50+." |} |} ]
       else [])
      ++
      (if num_gt temp RISK_LIMITS.TEMP_DANGER then
         [ {| type := "Temp_danger"; severity := "danger";
              message := {| before := "🌡 Extreme heat — ";
                            number := Interpolated temp;
                            after := "°C. Risk of heatstroke. Stay indoors." |} |} ]
       else [])
      ++
      (if num_lt visibility RISK_LIMITS.VISIBILITY_DANGER then
         [ {| type := "Visibility_danger"; severity := "danger";
              message := {| before := "🌫 Very poor visibility — ";
                            number := Interpolated visibility;
                            after := " km. Avoid driving." |} |} ]
       else [])
      ++
      (match wind with
       | Some wind =>
           if num_gt wind RISK_LIMITS.WIND_DANGER then
             [ {| type := "Wind_danger"; severity := "danger";
                  message := {| before := "💨 Storm-level winds — ";
                                number := Interpolated wind;
                                after := " km/h. Stay indoors." |} |} ]
           else []
       | None => []
       end)
  | _, _, _, _ => []
  end.

(** ** The in-memory token store *)

(** A JavaScript [Map] with string keys, in insertion order.  [set] on a key
    that is present replaces its value where it stands; on a new key it
    appends.  [has] followed by [get] is one [Map_get]. *)
Section JsMap.
Context {V : Type}.

Fixpoint Map_get (k : string) (m : list (string * V)) : option V :=
  match m with
  | [] => None
  | (k', v) :: m' => if String.eqb k' k then Some v else Map_get k m'
  end.

Fixpoint Map_set (k : string) (v : V) (m : list (string * V)) : list (string * V) :=
  match m with
  | [] => [(k, v)]
  | (k', v') :: m' =>
      if String.eqb k' k then (k, v) :: m' else (k', v') :: Map_set k v m'
  end.

Fixpoint Map_delete (k : string) (m : list (string * V)) : list (string * V) :=
  match m with
  | [] => []
  | (k', v') :: m' =>
      if String.eqb k' k then Map_delete k m' else (k', v') :: Map_delete k m'
  end.

Definition Map_size (m : list (string * V)) : nat := length m.
End JsMap.

(** The object stored per device. *)
Record User : Type := {
  fcmToken : string;
  latitude : JsVal;
  longitude : JsVal;
  appOpen : JsVal;
  lastAlertedTypes : list string
}.

Abbreviation ref := nat (only parsing).

Record State : Type := {
  userStore : list (string * ref);
  heap : list User
}.

Definition empty_state : State := {| userStore := []; heap := [] |}.

(** [{ ... }]: a new object. *)
Definition alloc (u : User) (h : list User) : ref * list User :=
  (length h, h ++ [u]).

(** [userStore.get(k)] followed by a read of the object. *)
Definition get (k : string) (st : State) : option User :=
  match Map_get k (userStore st) with
  | Some r => heap st !! r
  | None => None
  end.

(** ** Routes *)

Record Body : Type := {
  req_fcmToken : JsVal;
  req_latitude : JsVal;
  req_longitude : JsVal;
  req_appOpen : JsVal
}.

Inductive Reply : Type :=
| Status400 (error : string)
| Status404 (error : string)
| Success (message : option string)
| Throws.   (* a TypeError leaves the handler; Express answers 500 *)

Definition missing_fields (req : Body) : bool :=
  negb (truthy (req_fcmToken req))
  || negb (truthy (req_latitude req))
  || negb (truthy (req_longitude req)).

(** [app.post("/register")]. *)
Definition register (req : Body) (st : State) : Reply * State :=
  if missing_fields req then
    (Status400 "fcmToken, latitude, and longitude are required.", st)
  else
    match req_fcmToken req with
    | JStr tok =>
        if negb (String.prefix "ExponentPushToken[" tok) then
          (Status400 "Invalid token format. Expected ExponentPushToken[...].", st)
        else
          let '(obj, h) :=
            alloc {| fcmToken := tok;
                     latitude := req_latitude req;
                     longitude := req_longitude req;
                     appOpen := JBool false;
                     lastAlertedTypes := [] |} (heap st) in
          let st' := {| userStore := Map_set tok obj (userStore st); heap := h |} in
          (* the log line interpolates both coordinates, after the set *)
          if prints (req_latitude req) && prints (req_longitude req) then
            (Success (Some "Device registered for push alerts."), st')
          else (Throws, st')
    | _ => (Throws, st)   (* fcmToken.startsWith is not a function *)
    end.

Definition set_location (lat lon open : JsVal) (u : User) : User :=
  {| fcmToken := fcmToken u;
     latitude := lat;
     longitude := lon;
     appOpen := open;
     lastAlertedTypes := lastAlertedTypes u |}.

(** [app.post("/update-location")].  Its log lines print a slice of the token
    only, so no coordinate is converted to a string here. *)
Definition update_location (req : Body) (st : State) : Reply * State :=
  if missing_fields req then
    (Status400 "fcmToken, latitude, and longitude are required.", st)
  else
    match req_fcmToken req with
    | JStr tok =>
        match Map_get tok (userStore st) with
        | None =>
            if negb (String.prefix "ExponentPushToken[" tok) then
              (Status400 "Invalid token format.", st)
            else
              let '(obj, h) :=
                alloc {| fcmToken := tok;
                         latitude := req_latitude req;
                         longitude := req_longitude req;
                         appOpen := coalesce (req_appOpen req) (JBool false);
                         lastAlertedTypes := [] |} (heap st) in
              (Success (Some "Device auto-registered."),
               {| userStore := Map_set tok obj (userStore st); heap := h |})
        | Some user =>
            (Success None,
             {| userStore := userStore st;
                heap := alter (set_location (req_latitude req) (req_longitude req)
                                 (coalesce (req_appOpen req) (JBool false)))
                              user (heap st) |})
        end
    | _ => (Throws, st)
    end.

(** ** The two collaborators and the record of what the sweep asked them *)

(** [response.data?.data] of the Expo push API: the per-message ticket, as
    far as the code looks at it. *)
Record Ticket : Type := {
  status : option string;          (* result.status *)
  details_error : option string    (* result.details?.error *)
}.

Inductive GetReply : Type :=
| GetThrows                                  (* axios.get rejects *)
| GetReturns (data : option WeatherData).    (* response.data *)

Inductive PostReply : Type :=
| PostThrows                                 (* axios.post rejects *)
| PostReturns (result : option Ticket).

(** The outcome of [admin.messaging().send] in the Firebase backend. *)
Inductive SendReply : Type :=
| SendResolves
| SendRejects (code : option string).        (* err.code *)

(** What the sweep did towards a collaborator, with what came of it.
    [for_user] is the token of the entry the sweep was working on.
    [WeatherGet] is the weather step of a turn: the query is built from the
    stored coordinates and the request is sent.  When a coordinate does not
    print, building the query throws inside the [try] and no request leaves;
    the step is then recorded with [GetThrows], which is what the [catch]
    makes of both failures.  [ExpoPost] and [FcmSend] are calls that were
    made. *)
Inductive Event : Type :=
| WeatherGet (for_user : string) (lat lon : JsVal) (reply : GetReply)
| ExpoPost (to : string) (title : string) (alert : Alert) (reply : PostReply)
| FcmSend (token : string) (title : string) (alert : Alert) (reply : SendReply).

Definition event_user (e : Event) : string :=
  match e with
  | WeatherGet k _ _ _ => k
  | ExpoPost k _ _ _ => k
  | FcmSend k _ _ _ => k
  end.

(** The outside world: each reply may depend on everything asked so far. *)
Record World : Type := {
  weather : list Event -> JsVal -> JsVal -> GetReply;
  expo : list Event -> string -> Alert -> PostReply
}.

(** The sweep threads the store and the calls made so far, oldest first. *)
Definition Config : Type := State * list Event.

(** [for (const [token, user] of userStore.entries()) body], over the entries
    present when the loop starts.  The iterator of a [Map] is live: an entry
    deleted before its turn is not visited. *)
Fixpoint for_entries (body : string -> ref -> Config -> Config)
    (entries : list (string * ref)) (c : Config) : Config :=
  match entries with
  | [] => c
  | (token, user) :: rest =>
      for_entries body rest
        (match Map_get token (userStore (fst c)) with
         | Some user' => if Nat.eqb user' user then body token user c else c
         | None => c
         end)
  end.

(** Firebase rejected the send with one of the two codes that mean the token
    is unusable for good. *)
Definition invalid_registration (r : SendReply) : bool :=
  match r with
  | SendRejects (Some c) =>
      String.eqb c "messaging/invalid-registration-token"
      || String.eqb c "messaging/registration-token-not-registered"
  | _ => false
  end.

(** The push API reported the token as unusable for good. *)
Definition permanently_invalid (r : PostReply) : bool :=
  match r with
  | PostReturns (Some result) =>
      match status result with
      | Some s =>
          String.eqb s "error"
          && match details_error result with
             | Some e =>
                 String.eqb e "DeviceNotRegistered"
                 || String.eqb e "InvalidCredentials"
             | None => false
             end
      | None => false
      end
  | _ => false
  end.

(** [sendExpoPushNotification(expoToken, alert)].  Whatever happens inside
    its [try] is caught there, so it always returns. *)
Definition sendExpoPushNotification (w : World) (expoToken : string)
    (alert : Alert) (c : Config) : Config :=
  let '(st, tr) := c in
  let title :=
    if String.eqb (severity alert) "danger"
    then "🚨 Dangerous Condition" else "⚠️ Severe Condition" in
  let reply := expo w tr expoToken alert in
  let tr' := tr ++ [ExpoPost expoToken title alert reply] in
  match reply with
  | PostThrows => (st, tr')
  | PostReturns result =>
      if match result ?-> status with
         | Some s => String.eqb s "error"
         | None => false
         end
      then
        if match result ?-> details_error with
           | Some e =>
               String.eqb e "DeviceNotRegistered"
               || String.eqb e "InvalidCredentials"
           | None => false
           end
        then
          ({| userStore := Map_delete expoToken (userStore st);
              heap := heap st |}, tr')
        else (st, tr')
      else (st, tr')
  end.

(** [arr.includes(x)] on an array of strings. *)
Definition includes (arr : list string) (x : string) : bool :=
  existsb (String.eqb x) arr.

Definition is_severe_or_danger (a : Alert) : bool :=
  String.eqb (severity a) "severe" || String.eqb (severity a) "danger".

Definition set_lastAlertedTypes (types : list string) (u : User) : User :=
  {| fcmToken := fcmToken u;
     latitude := latitude u;
     longitude := longitude u;
     appOpen := appOpen u;
     lastAlertedTypes := types |}.

(** The de-duplication step in the middle of the loop body: which alerts are
    pushed, and what [lastAlertedTypes] becomes. *)
Definition reconcile (allAlerts : list Alert) (prior : list string)
    : list Alert * list string :=
  let severeAndAbove := List.filter is_severe_or_danger allAlerts in
  let newAlerts :=
    List.filter (fun a => negb (includes prior (type a))) severeAndAbove in
  (newAlerts, List.map type severeAndAbove).

(** [for (const alert of newAlerts) await sendExpoPushNotification(...)]. *)
Definition send_all (w : World) (expoToken : string) (alerts : list Alert)
    (c : Config) : Config :=
  fold_left (fun c alert => sendExpoPushNotification w expoToken alert c) alerts c.

(** One turn of the loop of [checkAllUsers], [user] being the object the
    iterator handed out for [expoToken]. *)
Definition check_user (w : World) (expoToken : string) (user : ref)
    (c : Config) : Config :=
  let '(st, tr) := c in
  match heap st !! user with
  | None => c
  | Some u =>
      if truthy (appOpen u) then c   (* continue *)
      else
        let reply :=
          if prints (latitude u) && prints (longitude u)
          then weather w tr (latitude u) (longitude u)
          else GetThrows in
        let tr1 := tr ++ [WeatherGet expoToken (latitude u) (longitude u) reply] in
        match reply with
        | GetThrows => (st, tr1)     (* caught by the loop's own catch *)
        | GetReturns data =>
            let allAlerts := evaluateRisk data in
            let '(newAlerts, types) := reconcile allAlerts (lastAlertedTypes u) in
            let '(st2, tr2) := send_all w expoToken newAlerts (st, tr1) in
            ({| userStore := userStore st2;
                heap := alter (set_lastAlertedTypes types) user (heap st2) |},
             tr2)
        end
  end.

(** [checkAllUsers()]. *)
Definition checkAllUsers (w : World) (c : Config) : Config :=
  if Nat.eqb (Map_size (userStore (fst c))) 0 then c
  else for_entries (check_user w) (userStore (fst c)) c.

(** ** The trigger route *)

(** [a !== b] between [req.query.secret] and [process.env.CRON_SECRET].  The
    query parameter is missing, a string, or (repeated or bracketed
    parameters) an array or object; the environment variable is a string or
    not set. *)
Definition strict_neq (query : JsVal) (env : option string) : bool :=
  match query, env with
  | JUndefined, None => false
  | JStr s, Some e => negb (String.eqb s e)
  | _, _ => true
  end.

Inductive CheckReply : Type :=
| Unauthorized                    (* 401 { error: "Unauthorized." } *)
| Checked (usersChecked : nat).   (* { success: true, usersChecked } *)

(** [app.get("/check")]. *)
Definition check (CRON_SECRET : option string) (secret : JsVal) (w : World)
    (c : Config) : CheckReply * Config :=
  if strict_neq secret CRON_SECRET then (Unauthorized, c)
  else
    let c' := checkAllUsers w c in
    (Checked (Map_size (userStore (fst c'))), c').

(** ** The Firebase backend

    The older server differs from the one above in four places: pushes go
    through Firebase Cloud Messaging, whose failures carry an error code; the
    stored objects have no [appOpen] property (reading it gives undefined)
    and the sweep does not look at it; [/register] does not check the format
    of the token; [/update-location] refuses a token it does not know and
    checks neither coordinate.  [evaluateRisk], the thresholds and the
    de-duplication step are the same text.

    The registry of this development holds string tokens.  The Firebase
    [/register] also stores a truthy token that is not a string, and the
    sweep then fails on such a key where it takes a slice of it; that is
    outside this development.  What is modelled here is the two routes on the
    requests they can be given, and one turn of the loop for a string token;
    the loop as a whole is not modelled. *)

Module Legacy.

Record World : Type := {
  weather : list Event -> JsVal -> JsVal -> GetReply;
  fcm : list Event -> string -> Alert -> SendReply
}.

(** [sendPushNotification(fcmToken, alert)]. *)
Definition sendPushNotification (w : World) (fcmToken : string)
    (alert : Alert) (c : Config) : Config :=
  let '(st, tr) := c in
  let title :=
    if String.eqb (severity alert) "danger"
    then "🚨 Dangerous Condition" else "⚠️ Severe Condition" in
  let reply := fcm w tr fcmToken alert in
  let tr' := tr ++ [FcmSend fcmToken title alert reply] in
  match reply with
  | SendResolves => (st, tr')
  | SendRejects code =>
      if match code with
         | Some c =>
             String.eqb c "messaging/invalid-registration-token"
             || String.eqb c "messaging/registration-token-not-registered"
         | None => false
         end
      then
        ({| userStore := Map_delete fcmToken (userStore st);
            heap := heap st |}, tr')
      else (st, tr')
  end.

Definition send_all (w : World) (fcmToken : string) (alerts : list Alert)
    (c : Config) : Config :=
  fold_left (fun c alert => sendPushNotification w fcmToken alert c) alerts c.

(** One turn of the loop of [checkAllUsers]. *)
Definition check_user (w : World) (fcmToken : string) (user : ref)
    (c : Config) : Config :=
  let '(st, tr) := c in
  match heap st !! user with
  | None => c
  | Some u =>
      let reply :=
        if prints (latitude u) && prints (longitude u)
        then weather w tr (latitude u) (longitude u)
        else GetThrows in
      let tr1 := tr ++ [WeatherGet fcmToken (latitude u) (longitude u) reply] in
      match reply with
      | GetThrows => (st, tr1)
      | GetReturns data =>
          let alerts := evaluateRisk data in
          let '(newAlerts, types) := reconcile alerts (lastAlertedTypes u) in
          let '(st2, tr2) := send_all w fcmToken newAlerts (st, tr1) in
          ({| userStore := userStore st2;
              heap := alter (set_lastAlertedTypes types) user (heap st2) |},
           tr2)
      end
  end.

(** [app.post("/register")].  A truthy token that is not a string would be
    stored under a key that is not a string, which the registry of this
    development cannot hold: the result is [None] there and nowhere else. *)
Definition register (req : Body) (st : State) : option (Reply * State) :=
  if missing_fields req then
    Some (Status400 "fcmToken, latitude, longitude required", st)
  else
    match req_fcmToken req with
    | JStr tok =>
        let '(obj, h) :=
          alloc {| fcmToken := tok;
                   latitude := req_latitude req;
                   longitude := req_longitude req;
                   appOpen := JUndefined;
                   lastAlertedTypes := [] |} (heap st) in
        let st' := {| userStore := Map_set tok obj (userStore st); heap := h |} in
        (* the log line interpolates both coordinates, after the set *)
        if prints (req_latitude req) && prints (req_longitude req) then
          Some (Success (Some "Device registered for alerts"), st')
        else Some (Throws, st')
    | _ => None
    end.

Definition set_location (lat lon : JsVal) (u : User) : User :=
  {| fcmToken := fcmToken u;
     latitude := lat;
     longitude := lon;
     appOpen := appOpen u;
     lastAlertedTypes := lastAlertedTypes u |}.

(** [app.post("/update-location")].  A key of the registry is a string, so
    [userStore.has] is false on every other value. *)
Definition update_location (req : Body) (st : State) : Reply * State :=
  match req_fcmToken req with
  | JStr tok =>
      if negb (truthy (JStr tok)) then (Status404 "Device not registered", st)
      else
        match Map_get tok (userStore st) with
        | None => (Status404 "Device not registered", st)
        | Some user =>
            (Success None,
             {| userStore := userStore st;
                heap := alter (set_location (req_latitude req) (req_longitude req))
                              user (heap st) |})
        end
  | _ => (Status404 "Device not registered", st)
  end.

End Legacy.

(** ** Reading snapshots *)

(** What [evaluateRisk] reads out of a response. *)
Definition reading_pm25 (data : option WeatherData) : option Q :=
  data ?-> current ?-> air_quality ?-> pm2_5.
Definition reading_uv (data : option WeatherData) : option Q :=
  data ?-> current ?-> uv.
Definition reading_temp (data : option WeatherData) : option Q :=
  data ?-> current ?-> temp_c.
Definition reading_visibility (data : option WeatherData) : option Q :=
  data ?-> current ?-> vis_km.
Definition reading_wind (data : option WeatherData) : option Q :=
  data ?-> current ?-> wind_kph.

(** The response that carries exactly the given five readings. *)
Definition snapshot (pm25 uv tempC visibilityKm windKph : option Q)
    : option WeatherData :=
  Some {| current :=
            Some {| air_quality := Some {| pm2_5 := pm25 |};
                    uv := uv;
                    temp_c := tempC;
                    vis_km := visibilityKm;
                    wind_kph := windKph |} |}.

(** The same response with another wind reading. *)
Definition with_wind (wind : option Q) (data : option WeatherData)
    : option WeatherData :=
  match data with
  | Some {| current := Some cur |} =>
      Some {| current :=
                Some {| air_quality := air_quality cur;
                        uv := uv cur;
                        temp_c := temp_c cur;
                        vis_km := vis_km cur;
                        wind_kph := wind |} |}
  | _ => data
  end.

Definition is_wind_alert (a : Alert) : bool := String.eqb (type a) "Wind_danger".

(** ** Vocabulary of the statements *)

(** The five metrics in the order the engine looks at them, the air-quality
    slot holding one of its two types. *)
Definition evaluation_order (air : string) : list string :=
  [air; "UV_danger"; "Temp_danger"; "Visibility_danger"; "Wind_danger"].

(** The push service disowned the token in this call. *)
Definition reply_invalid (e : Event) : bool :=
  match e with
  | ExpoPost _ _ _ reply => permanently_invalid reply
  | FcmSend _ _ _ reply => invalid_registration reply
  | WeatherGet _ _ _ _ => false
  end.

(** [e] is a push of [a] to [k]. *)
Definition is_post (k : string) (e : Event) (a : Alert) : Prop :=
  exists title reply, e = ExpoPost k title a reply.

(** [e] is a Firebase send of [a] to [k]. *)
Definition is_send (k : string) (e : Event) (a : Alert) : Prop :=
  exists title reply, e = FcmSend k title a reply.

(** The calls made on behalf of one token. *)
Definition user_events (k : string) (evs : list Event) : list Event :=
  List.filter (fun e => String.eqb (event_user e) k) evs.

(** Between [c] and [c'] nothing happened to the entry of [k], to the object
    [r], and no call was made on behalf of [k]. *)
Definition untouched (k : string) (r : ref) (c c' : Config) : Prop :=
  Map_get k (userStore (fst c')) = Map_get k (userStore (fst c))
  /\ heap (fst c') !! r = heap (fst c) !! r
  /\ exists evs : list Event, snd c' = snd c ++ evs /\ user_events k evs = [].

(** A loop body that, working on one entry, leaves every other entry alone. *)
Definition local_body (body : string -> ref -> Config -> Config) : Prop :=
  forall (k k' : string) (r r' : ref) (c : Config),
    k <> k' -> r <> r' -> untouched k r c (body k' r' c).

(** The store invariant: tokens are distinct, no two entries share an
    object, and every entry points into the heap. *)
Definition wf_store (st : State) : Prop :=
  NoDup (userStore st).*1
  /\ NoDup (userStore st).*2
  /\ Forall (fun kr => kr.2 < length (heap st)) (userStore st).

(** The four readings the engine insists on are all there. *)
Definition gate_open (data : option WeatherData) : bool :=
  match reading_pm25 data, reading_uv data, reading_temp data,
        reading_visibility data with
  | Some _, Some _, Some _, Some _ => true
  | _, _, _, _ => false
  end.

(** The alert a push carried. *)
Definition pushed_alert (e : Event) : option Alert :=
  match e with
  | ExpoPost _ _ a _ => Some a
  | FcmSend _ _ a _ => Some a
  | WeatherGet _ _ _ _ => None
  end.

Definition is_weather_get (e : Event) : bool :=
  match e with
  | WeatherGet _ _ _ _ => true
  | _ => false
  end.

(** A weather step in which the request was sent. *)
Definition is_weather_request (e : Event) : bool :=
  match e with
  | WeatherGet _ lat lon _ => prints lat && prints lon
  | _ => false
  end.

(** Two objects that differ at most in [lastAlertedTypes]. *)
Definition same_but_alerts (u u' : User) : Prop :=
  fcmToken u' = fcmToken u /\ latitude u' = latitude u
  /\ longitude u' = longitude u /\ appOpen u' = appOpen u.

(** What a sweep may do between [c] and [c']: drop entries of the store,
    change [lastAlertedTypes] of objects, and make calls on behalf of the
    tokens in [keys]. *)
Definition sweep_shape (keys : list string) (c c' : Config) : Prop :=
  userStore (fst c') `sublist_of` userStore (fst c)
  /\ length (heap (fst c')) = length (heap (fst c))
  /\ (forall (r : ref) (u' : User),
        heap (fst c') !! r = Some u' ->
        exists u : User, heap (fst c) !! r = Some u /\ same_but_alerts u u')
  /\ exists evs : list Event,
       snd c' = snd c ++ evs /\ Forall (fun e => event_user e ∈ keys) evs.

(** Every entry of the store has the Expo token format as its key and holds
    an object that carries the key as its [fcmToken]. *)
Definition expo_tokens (st : State) : Prop :=
  forall (k : string) (r : ref),
    (k, r) ∈ userStore st ->
    String.prefix "ExponentPushToken[" k = true
    /\ exists u : User, heap st !! r = Some u /\ fcmToken u = k.

(** ** A run used in the examples *)

Definition demo_token : string := "ExponentPushToken[demo]".

Definition demo_request : Body :=
  {| req_fcmToken := JStr demo_token;
     req_latitude := JNum (285 # 10);
     req_longitude := JNum (772 # 10);
     req_appOpen := JUndefined |}.

Definition delivered : PostReply :=
  PostReturns (Some {| status := Some "ok"; details_error := None |}).

Definition device_not_registered : PostReply :=
  PostReturns (Some {| status := Some "error";
                       details_error := Some "DeviceNotRegistered" |}).

(** Hazardous air everywhere, and every push is delivered. *)
Definition hazy_world : World :=
  {| weather := fun _ _ _ =>
       GetReturns (snapshot (Some 60%Q) (Some 1%Q) (Some 10%Q) (Some 10%Q) None);
     expo := fun _ _ _ => delivered |}.

(** Hazardous air everywhere, and the push API disowns every token. *)
Definition disowning_world : World :=
  {| weather := weather hazy_world;
     expo := fun _ _ _ => device_not_registered |}.

(** Heat, haze, fog and storm at once, and the push API disowns every
    token. *)
Definition stormy_disowning_world : World :=
  {| weather := fun _ _ _ =>
       GetReturns (snapshot (Some 60%Q) (Some 7%Q) (Some 45%Q) (Some 1%Q) (Some 80%Q));
     expo := fun _ _ _ => device_not_registered |}.

(** Every weather request fails. *)
Definition offline_world : World :=
  {| weather := fun _ _ _ => GetThrows;
     expo := fun _ _ _ => PostThrows |}.

(** The store after the demo device registered and one sweep ran. *)
Definition demo_registered : State := snd (register demo_request empty_state).
Definition demo_swept : State := fst (checkAllUsers hazy_world (demo_registered, [])).

(** The demo device with its app in the foreground. *)
Definition demo_open : State :=
  snd (update_location
         {| req_fcmToken := JStr demo_token;
            req_latitude := JNum (285 # 10);
            req_longitude := JNum (772 # 10);
            req_appOpen := JBool true |} empty_state).

(** The demo device after a location update whose latitude is an object that
    does not print, such as [{"toString": 1}]. *)
Definition demo_unprintable : State :=
  snd (update_location
         {| req_fcmToken := JStr demo_token;
            req_latitude := JObj false;
            req_longitude := JNum (772 # 10);
            req_appOpen := JUndefined |} demo_swept).

(** A second device, and the store with both. *)
Definition other_token : string := "ExponentPushToken[other]".

Definition other_request : Body :=
  {| req_fcmToken := JStr other_token;
     req_latitude := JNum (407 # 10);
     req_longitude := JNum (-740 # 10);
     req_appOpen := JBool true |}.

Definition two_devices : State := snd (update_location other_request demo_swept).

(** Hazardous air everywhere, and Firebase accepts every send. *)
Definition legacy_hazy_world : Legacy.World :=
  {| Legacy.weather := fun _ _ _ =>
       GetReturns (snapshot (Some 60%Q) (Some 1%Q) (Some 10%Q) (Some 10%Q) None);
     Legacy.fcm := fun _ _ _ => SendResolves |}.

(** The store of the Firebase backend after the demo device registered. *)
Definition legacy_demo_registered : State :=
  match Legacy.register demo_request empty_state with
  | Some (_, st) => st
  | None => empty_state
  end.

(** The store after the push API disowned the demo device during a sweep. *)
Definition demo_disowned : State :=
  fst (checkAllUsers disowning_world (demo_registered, [])).

(** * Properties of the risk engine *)

Lemma evaluateRisk_readings (data : option WeatherData) :
  evaluateRisk data =
  evaluateRisk (snapshot (reading_pm25 data) (reading_uv data) (reading_temp data)
                         (reading_visibility data) (reading_wind data)).
Proof.
  destruct data as [[[cur|]]|]; reflexivity.
Qed.

Lemma evaluateRisk_gate (data : option WeatherData) :
  reading_pm25 data = None \/ reading_uv data = None \/
  reading_temp data = None \/ reading_visibility data = None ->
  evaluateRisk data = [].
Proof.
  intros H. rewrite evaluateRisk_readings.
  destruct (reading_pm25 data), (reading_uv data), (reading_temp data),
    (reading_visibility data); try reflexivity.
  destruct H as [H | [H | [H | H]]]; discriminate H.
Qed.

Lemma evaluateRisk_without_wind (data : option WeatherData) (wind : Q) :
  evaluateRisk (with_wind None data) =
  List.filter (fun a => negb (is_wind_alert a))
    (evaluateRisk (with_wind (Some wind) data)).
Proof.
  destruct data as [[[cur|]]|]; try reflexivity.
  destruct cur as [[[[p|]]|] [u|] [t|] [v|] wd]; try reflexivity.
  unfold with_wind, evaluateRisk; cbn [chain current air_quality pm2_5 uv temp_c vis_km wind_kph].
  destruct (num_gt p RISK_LIMITS.PM25_DANGER), (num_gt p RISK_LIMITS.PM25_SEVERE),
    (num_gt u RISK_LIMITS.UV_DANGER), (num_gt t RISK_LIMITS.TEMP_DANGER),
    (num_lt v RISK_LIMITS.VISIBILITY_DANGER), (num_gt wind RISK_LIMITS.WIND_DANGER);
    reflexivity.
Qed.

Lemma num_gt_Qlt_le_dec (a b : Q) :
  num_gt a b = if Qlt_le_dec b a then true else false.
Proof.
  unfold num_gt. destruct (Qlt_le_dec b a) as [Hlt|Hle].
  - apply negb_true_iff, not_true_iff_false. rewrite Qle_bool_iff.
    by apply Qlt_not_le.
  - apply negb_false_iff. by apply Qle_bool_iff.
Qed.

Lemma num_lt_Qlt_le_dec (a b : Q) :
  num_lt a b = if Qlt_le_dec a b then true else false.
Proof.
  unfold num_lt. destruct (Qlt_le_dec a b) as [Hlt|Hle].
  - apply negb_true_iff, not_true_iff_false. rewrite Qle_bool_iff.
    by apply Qlt_not_le.
  - apply negb_false_iff. by apply Qle_bool_iff.
Qed.

(** With the four required readings present and no wind reading, the alert
    types are those of the four metrics, each decided by its own threshold. *)
Lemma evaluateRisk_four_metrics (data : option WeatherData) (p u t v : Q) :
  reading_pm25 data = Some p ->
  reading_uv data = Some u ->
  reading_temp data = Some t ->
  reading_visibility data = Some v ->
  reading_wind data = None ->
  List.map type (evaluateRisk data)
  = (if Qlt_le_dec RISK_LIMITS.PM25_DANGER p then ["AirQuality_danger"]
     else if Qlt_le_dec RISK_LIMITS.PM25_SEVERE p then ["AirQuality_severe"]
     else [])
    ++ (if Qlt_le_dec RISK_LIMITS.UV_DANGER u then ["UV_danger"] else [])
    ++ (if Qlt_le_dec RISK_LIMITS.TEMP_DANGER t then ["Temp_danger"] else [])
    ++ (if Qlt_le_dec v RISK_LIMITS.VISIBILITY_DANGER then ["Visibility_danger"]
        else []).
Proof.
  intros Hp Hu Ht Hv Hw.
  rewrite (evaluateRisk_readings data), Hp, Hu, Ht, Hv, Hw.
  unfold evaluateRisk, snapshot;
    cbn [chain current air_quality pm2_5 uv temp_c vis_km wind_kph].
  rewrite !num_gt_Qlt_le_dec, num_lt_Qlt_le_dec.
  destruct (Qlt_le_dec RISK_LIMITS.PM25_DANGER p),
    (Qlt_le_dec RISK_LIMITS.PM25_SEVERE p), (Qlt_le_dec RISK_LIMITS.UV_DANGER u),
    (Qlt_le_dec RISK_LIMITS.TEMP_DANGER t), (Qlt_le_dec v RISK_LIMITS.VISIBILITY_DANGER);
    reflexivity.
Qed.

(** C3. When one of pm25, uv, temp or visibility is absent from the response,
    [evaluateRisk] returns no alert.  A missing wind reading alone does not
    empty the result.  With the four required readings present and no wind
    reading, the alert types are exactly those of the four other metrics:
    the air-quality alert for pm25 above 55, or above 35, then the UV alert
    for uv above 6, the temperature alert above 40 and the visibility alert
    below 2; only the wind alert is missing, since the result is the one for
    any wind reading with the wind alert left out.  A response with haze,
    heat, strong sun and fog and no wind reading yields all four alerts. *)
Theorem classify_precondition_gate :
  (forall data : option WeatherData,
     reading_pm25 data = None \/ reading_uv data = None \/
     reading_temp data = None \/ reading_visibility data = None ->
     evaluateRisk data = [])
  /\ (forall (data : option WeatherData) (wind : Q),
        evaluateRisk (with_wind None data) =
        List.filter (fun a => negb (is_wind_alert a))
          (evaluateRisk (with_wind (Some wind) data)))
  /\ List.map type (evaluateRisk (snapshot (Some 60%Q) (Some 1%Q) (Some 10%Q) (Some 10%Q) None))
     = ["AirQuality_danger"]
  /\ (forall (data : option WeatherData) (p u t v : Q),
        reading_pm25 data = Some p ->
        reading_uv data = Some u ->
        reading_temp data = Some t ->
        reading_visibility data = Some v ->
        reading_wind data = None ->
        List.map type (evaluateRisk data)
        = (if Qlt_le_dec RISK_LIMITS.PM25_DANGER p then ["AirQuality_danger"]
           else if Qlt_le_dec RISK_LIMITS.PM25_SEVERE p then ["AirQuality_severe"]
           else [])
          ++ (if Qlt_le_dec RISK_LIMITS.UV_DANGER u then ["UV_danger"] else [])
          ++ (if Qlt_le_dec RISK_LIMITS.TEMP_DANGER t then ["Temp_danger"] else [])
          ++ (if Qlt_le_dec v RISK_LIMITS.VISIBILITY_DANGER then ["Visibility_danger"]
              else []))
  /\ List.map type (evaluateRisk (snapshot (Some 60%Q) (Some 7%Q) (Some 45%Q) (Some 1%Q) None))
     = ["AirQuality_danger"; "UV_danger"; "Temp_danger"; "Visibility_danger"]
  /\ List.map type (evaluateRisk (snapshot (Some 40%Q) (Some 1%Q) (Some 45%Q) (Some 10%Q) None))
     = ["AirQuality_severe"; "Temp_danger"].
Proof.
  split; [exact evaluateRisk_gate|].
  split; [exact evaluateRisk_without_wind|].
  split; [reflexivity|].
  split; [exact evaluateRisk_four_metrics|].
  split; reflexivity.
Qed.

Lemma classify_precondition_gate_witness :
  evaluateRisk (snapshot (Some 60%Q) None (Some 45%Q) (Some 1%Q) (Some 80%Q)) = []
  /\ List.map type
       (evaluateRisk (snapshot (Some 60%Q) (Some 7%Q) (Some 10%Q) (Some 1%Q) None))
     = ["AirQuality_danger"; "UV_danger"; "Visibility_danger"].
Proof.
  split.
  - apply (proj1 classify_precondition_gate). right; left; reflexivity.
  - exact (proj1 (proj2 (proj2 (proj2 classify_precondition_gate)))
             (snapshot (Some 60%Q) (Some 7%Q) (Some 10%Q) (Some 1%Q) None)
             60%Q 7%Q 10%Q 1%Q eq_refl eq_refl eq_refl eq_refl eq_refl).
Defined.

Lemma evaluateRisk_order (data : option WeatherData) :
  exists air : string,
    (air = "AirQuality_danger" \/ air = "AirQuality_severe")
    /\ sublist (List.map type (evaluateRisk data)) (evaluation_order air).
Proof.
  rewrite evaluateRisk_readings.
  destruct (reading_pm25 data) as [p|], (reading_uv data) as [u|],
    (reading_temp data) as [t|], (reading_visibility data) as [v|];
    try (exists "AirQuality_danger"; split; [by left | apply sublist_nil_l]).
  unfold evaluateRisk, snapshot; cbn [chain current air_quality pm2_5 uv temp_c vis_km wind_kph].
  destruct (num_gt p RISK_LIMITS.PM25_DANGER) eqn:Hd.
  - exists "AirQuality_danger". split; [by left|].
    destruct (num_gt u RISK_LIMITS.UV_DANGER), (num_gt t RISK_LIMITS.TEMP_DANGER),
      (num_lt v RISK_LIMITS.VISIBILITY_DANGER), (reading_wind data) as [wd|];
      try destruct (num_gt wd RISK_LIMITS.WIND_DANGER);
      cbn; repeat (first [apply sublist_nil_l | apply sublist_skip | apply sublist_cons]).
  - exists "AirQuality_severe". split; [by right|].
    destruct (num_gt p RISK_LIMITS.PM25_SEVERE),
      (num_gt u RISK_LIMITS.UV_DANGER), (num_gt t RISK_LIMITS.TEMP_DANGER),
      (num_lt v RISK_LIMITS.VISIBILITY_DANGER), (reading_wind data) as [wd|];
      try destruct (num_gt wd RISK_LIMITS.WIND_DANGER);
      cbn; repeat (first [apply sublist_nil_l | apply sublist_skip | apply sublist_cons]).
Qed.

(** C4. The alerts come out in the order air quality, UV, temperature,
    visibility, wind: their types always form a subsequence of that list.  On
    pm25 5, uv 7, temp 45, visibility 1, wind 80 the result is the four
    alerts UV, Temp, Visibility, Wind, all of severity danger, and no
    air-quality alert. *)
Theorem classify_fixed_order :
  (forall data : option WeatherData,
     exists air : string,
       (air = "AirQuality_danger" \/ air = "AirQuality_severe")
       /\ sublist (List.map type (evaluateRisk data)) (evaluation_order air))
  /\ (let alerts :=
        evaluateRisk (snapshot (Some 5%Q) (Some 7%Q) (Some 45%Q) (Some 1%Q) (Some 80%Q)) in
      List.map type alerts
        = ["UV_danger"; "Temp_danger"; "Visibility_danger"; "Wind_danger"]
      /\ List.map severity alerts = ["danger"; "danger"; "danger"; "danger"]
      /\ length alerts = 4).
Proof.
  split; [exact evaluateRisk_order | cbv zeta; repeat split; reflexivity].
Qed.

(** Every alert the engine emits is severe or danger, so the filter of the
    sweep keeps all of them. *)
Lemma evaluateRisk_severities (data : option WeatherData) :
  Forall (fun a => is_severe_or_danger a = true) (evaluateRisk data).
Proof.
  rewrite evaluateRisk_readings.
  destruct (reading_pm25 data) as [p|], (reading_uv data) as [u|],
    (reading_temp data) as [t|], (reading_visibility data) as [v|];
    try apply Forall_nil_2.
  unfold evaluateRisk, snapshot; cbn [chain current air_quality pm2_5 uv temp_c vis_km wind_kph].
  repeat apply Forall_app_2;
    repeat match goal with
           | |- context [if ?b then _ else _] => destruct b
           | |- context [match ?o with Some _ => _ | None => _ end] => destruct o
           end;
    repeat constructor.
Qed.

(** * Properties of the de-duplication step *)

Lemma includes_elem_of (arr : list string) (x : string) :
  includes arr x = true <-> x ∈ arr.
Proof.
  unfold includes. rewrite existsb_exists. split.
  - intros (y & Hy & He). apply String.eqb_eq in He. subst y.
    by apply list_elem_of_In.
  - intros H. exists x. split; [by apply list_elem_of_In | apply String.eqb_refl].
Qed.

Lemma filter_reflect {A : Type} (f : A -> bool) (P : A -> Prop)
    `{!forall x, Decision (P x)} (l : list A) :
  (forall x, f x = true <-> P x) -> List.filter f l = filter P l.
Proof.
  intros Hf. induction l as [|a l IH]; [reflexivity|].
  cbn [List.filter]. rewrite filter_cons. destruct (decide (P a)) as [Hp|Hp].
  - apply Hf in Hp. rewrite Hp. by f_equal.
  - destruct (f a) eqn:Hfa; [by apply Hf in Hfa | done].
Qed.

Lemma filter_all_true {A : Type} (f : A -> bool) (l : list A) :
  Forall (fun x => f x = true) l -> List.filter f l = l.
Proof.
  induction 1 as [|a l Ha _ IH]; [reflexivity|].
  cbn [List.filter]. rewrite Ha. by f_equal.
Qed.

Lemma reconcile_active (activeAlerts : list Alert) (S : list string) :
  Forall (fun a => is_severe_or_danger a = true) activeAlerts ->
  reconcile activeAlerts S
  = (filter (fun a => type a ∉ S) activeAlerts, List.map type activeAlerts).
Proof.
  intros Hact. unfold reconcile. rewrite (filter_all_true _ _ Hact). f_equal.
  apply filter_reflect. intros a. rewrite negb_true_iff, <- not_true_iff_false.
  by rewrite includes_elem_of.
Qed.

(** C1. For alerts that are all severe or danger and a prior array [S] of
    alerted types: the alerts to push are those whose type is not in [S], in
    the order they have among the active alerts, and the new array is the
    types of the active alerts.  When [S] has exactly the types of the active
    alerts as its elements, nothing is pushed and the new array has the
    elements of [S]. *)
Theorem reconcile_idempotent (activeAlerts : list Alert) (S : list string) :
  Forall (fun a => is_severe_or_danger a = true) activeAlerts ->
  let '(toNotify, newAlertedTypes) := reconcile activeAlerts S in
  toNotify = filter (fun a => type a ∉ S) activeAlerts
  /\ sublist toNotify activeAlerts
  /\ (list_to_set S =@{gset string} list_to_set (List.map type activeAlerts) ->
      toNotify = [] /\ list_to_set newAlertedTypes =@{gset string} list_to_set S).
Proof.
  intros Hact. rewrite (reconcile_active _ _ Hact).
  split; [reflexivity | split; [apply sublist_filter|]].
  intros HS. split; [|done].
  destruct (filter _ activeAlerts) as [|a l] eqn:Hf; [reflexivity | exfalso].
  assert (Hin : a ∈ filter (fun a => type a ∉ S) activeAlerts)
    by (rewrite Hf; apply list_elem_of_here).
  apply list_elem_of_filter in Hin as [Hn Ha]. apply Hn.
  apply (elem_of_list_to_set (C := gset string)). rewrite HS.
  apply elem_of_list_to_set, list_elem_of_In, in_map, list_elem_of_In, Ha.
Qed.

Lemma reconcile_idempotent_witness :
  reconcile (evaluateRisk (snapshot (Some 60%Q) (Some 7%Q) (Some 10%Q) (Some 10%Q) None))
            ["UV_danger"; "AirQuality_danger"]
  = ([], ["AirQuality_danger"; "UV_danger"])
  /\ list_to_set ["AirQuality_danger"; "UV_danger"] =@{gset string}
     list_to_set ["UV_danger"; "AirQuality_danger"].
Proof.
  pose proof (reconcile_idempotent
                (evaluateRisk (snapshot (Some 60%Q) (Some 7%Q) (Some 10%Q) (Some 10%Q) None))
                ["UV_danger"; "AirQuality_danger"]
                (evaluateRisk_severities _)) as H.
  destruct (reconcile _ _) as [toNotify newAlertedTypes] eqn:Hrec.
  destruct H as (_ & _ & H).
  injection Hrec as Hn Ht.
  destruct H as [H1 H2].
  - cbn. set_solver.
  - subst newAlertedTypes. split; [by rewrite H1 | exact H2].
Defined.

(** * Properties of the token store *)

Section JsMapFacts.
Context {V : Type}.
Implicit Types (k : string) (v : V) (m : list (string * V)).

Lemma Map_get_set_eq k v m : Map_get k (Map_set k v m) = Some v.
Proof.
  induction m as [|[k' v'] m IH]; cbn.
  - by rewrite String.eqb_refl.
  - destruct (String.eqb k' k) eqn:E; cbn.
    + by rewrite String.eqb_refl.
    + by rewrite E.
Qed.

Lemma Map_get_set_ne k k' v m :
  k <> k' -> Map_get k' (Map_set k v m) = Map_get k' m.
Proof.
  intros Hne. induction m as [|[k0 v0] m IH]; cbn.
  - by apply String.eqb_neq in Hne as ->.
  - destruct (String.eqb k0 k) eqn:E; cbn.
    + apply String.eqb_eq in E. subst k0.
      by apply String.eqb_neq in Hne as ->.
    + by rewrite IH.
Qed.

Lemma Map_get_delete_eq k m : Map_get k (Map_delete k m) = None.
Proof.
  induction m as [|[k' v'] m IH]; cbn; [done|].
  destruct (String.eqb k' k) eqn:E; cbn; [done | by rewrite E].
Qed.

Lemma Map_get_delete_ne k k' m :
  k <> k' -> Map_get k' (Map_delete k m) = Map_get k' m.
Proof.
  intros Hne. induction m as [|[k0 v0] m IH]; cbn; [done|].
  destruct (String.eqb k0 k) eqn:E; cbn.
  - apply String.eqb_eq in E. subst k0.
    by apply String.eqb_neq in Hne as ->.
  - by rewrite IH.
Qed.

Lemma Map_get_Some_elem_of k v m : Map_get k m = Some v -> (k, v) ∈ m.
Proof.
  induction m as [|[k' v'] m IH]; cbn; [done|].
  destruct (String.eqb k' k) eqn:E.
  - apply String.eqb_eq in E. intros [= ->]. subst. apply list_elem_of_here.
  - intros H. apply list_elem_of_further, IH, H.
Qed.

Lemma Map_get_None_keys k m : Map_get k m = None <-> k ∉ m.*1.
Proof.
  induction m as [|[k' v'] m IH]; cbn.
  - split; [intros _; apply not_elem_of_nil | done].
  - rewrite not_elem_of_cons. destruct (String.eqb k' k) eqn:E.
    + apply String.eqb_eq in E. subst. split; [done | by intros [? _]].
    + apply String.eqb_neq in E. rewrite IH.
      split; [intros H; split; [congruence | exact H] | intros [_ H]; exact H].
Qed.
End JsMapFacts.

Lemma lookup_alloc (u : User) (h : list User) :
  (alloc u h).2 !! (alloc u h).1 = Some u.
Proof. unfold alloc; cbn. by rewrite lookup_app_r, Nat.sub_diag. Qed.

Lemma lookup_alloc_old (u : User) (h : list User) (r : ref) (u' : User) :
  h !! r = Some u' -> (alloc u h).2 !! r = Some u'.
Proof. intros H. unfold alloc; cbn. by apply lookup_app_l_Some. Qed.

Lemma missing_fields_false (req : Body) :
  missing_fields req = false <->
  truthy (req_fcmToken req) = true /\ truthy (req_latitude req) = true
  /\ truthy (req_longitude req) = true.
Proof.
  unfold missing_fields.
  destruct (truthy (req_fcmToken req)), (truthy (req_latitude req)),
    (truthy (req_longitude req)); cbn; intuition congruence.
Qed.

(** * Properties of the routes *)

(** The object [/register] stores, whatever was stored before, and its
    answer: success, or the throw of the log line when a coordinate does not
    print. *)
Lemma register_stores_fresh (req : Body) (st : State) (tok : string) :
  req_fcmToken req = JStr tok ->
  String.prefix "ExponentPushToken[" tok = true ->
  truthy (req_latitude req) = true ->
  truthy (req_longitude req) = true ->
  tok <> "" ->
  fst (register req st)
  = (if prints (req_latitude req) && prints (req_longitude req)
     then Success (Some "Device registered for push alerts.") else Throws)
  /\ get tok (snd (register req st))
     = Some {| fcmToken := tok;
               latitude := req_latitude req;
               longitude := req_longitude req;
               appOpen := JBool false;
               lastAlertedTypes := [] |}.
Proof.
  intros Htok Hpre Hlat Hlon Hne. unfold register.
  assert (Hm : missing_fields req = false).
  { apply missing_fields_false. rewrite Htok; cbn.
    by apply String.eqb_neq in Hne as ->. }
  rewrite Hm, Htok, Hpre; cbn.
  destruct (prints (req_latitude req) && prints (req_longitude req));
    (split; [reflexivity|]); unfold get; cbn; rewrite Map_get_set_eq;
    by rewrite lookup_app_r, Nat.sub_diag.
Qed.

Lemma prefix_nonempty (p s : string) :
  p <> "" -> String.prefix p s = true -> s <> "".
Proof. intros Hp H ->. destruct p; [done | discriminate H]. Qed.

(** [/update-location] on a token that is registered. *)
Lemma update_location_present (req : Body) (st : State) (tok : string) (u : User) :
  req_fcmToken req = JStr tok ->
  tok <> "" ->
  truthy (req_latitude req) = true ->
  truthy (req_longitude req) = true ->
  get tok st = Some u ->
  fst (update_location req st) = Success None
  /\ userStore (snd (update_location req st)) = userStore st
  /\ get tok (snd (update_location req st))
     = Some {| fcmToken := fcmToken u;
               latitude := req_latitude req;
               longitude := req_longitude req;
               appOpen := coalesce (req_appOpen req) (JBool false);
               lastAlertedTypes := lastAlertedTypes u |}.
Proof.
  intros Htok Hne Hlat Hlon Hget. unfold update_location.
  assert (Hm : missing_fields req = false).
  { apply missing_fields_false. rewrite Htok; cbn.
    by apply String.eqb_neq in Hne as ->. }
  rewrite Hm, Htok. unfold get in *.
  destruct (Map_get tok (userStore st)) as [r|] eqn:Hr; [|discriminate Hget].
  cbn. rewrite Hr. split; [reflexivity | split; [reflexivity|]].
  by rewrite list_lookup_alter_eq, Hget.
Qed.

(** [/update-location] on a token that is not registered. *)
Lemma update_location_absent (req : Body) (st : State) (tok : string) :
  req_fcmToken req = JStr tok ->
  String.prefix "ExponentPushToken[" tok = true ->
  truthy (req_latitude req) = true ->
  truthy (req_longitude req) = true ->
  Map_get tok (userStore st) = None ->
  fst (update_location req st) = Success (Some "Device auto-registered.")
  /\ get tok (snd (update_location req st))
     = Some {| fcmToken := tok;
               latitude := req_latitude req;
               longitude := req_longitude req;
               appOpen := coalesce (req_appOpen req) (JBool false);
               lastAlertedTypes := [] |}.
Proof.
  intros Htok Hpre Hlat Hlon Habs. unfold update_location.
  assert (Hne : tok <> "") by (eapply prefix_nonempty; [|exact Hpre]; done).
  assert (Hm : missing_fields req = false).
  { apply missing_fields_false. rewrite Htok; cbn.
    by apply String.eqb_neq in Hne as ->. }
  rewrite Hm, Htok, Habs, Hpre; cbn. split; [reflexivity|].
  unfold get; cbn. rewrite Map_get_set_eq.
  by rewrite lookup_app_r, Nat.sub_diag.
Qed.

(** C6, as stated, fails: the demo device is in the registry with alerted
    types [AirQuality_danger]; a second [/register] of the same token
    succeeds and leaves it with no alerted types. *)
Lemma register_resets_alertedTypes :
  lastAlertedTypes <$> get demo_token demo_swept = Some ["AirQuality_danger"]
  /\ fst (register demo_request demo_swept)
     = Success (Some "Device registered for push alerts.")
  /\ lastAlertedTypes <$> get demo_token (snd (register demo_request demo_swept))
     = Some []
  /\ lastAlertedTypes <$> get demo_token (snd (register demo_request demo_swept))
     <> lastAlertedTypes <$> get demo_token demo_swept.
Proof. vm_compute. repeat split; discriminate. Qed.

(** C6, amended.  On a token that is registered, [/update-location] answers
    success, keeps the entry, overwrites latitude, longitude and [appOpen]
    and leaves the token and [lastAlertedTypes] as they were.  [/register]
    stores a new object with [appOpen] false and no alerted types whether or
    not the token was registered.  [/update-location] on a token that is not
    registered stores a new object with no alerted types. *)
Theorem upsert_alertedTypes (req : Body) (st : State) (tok : string) :
  req_fcmToken req = JStr tok ->
  String.prefix "ExponentPushToken[" tok = true ->
  truthy (req_latitude req) = true ->
  truthy (req_longitude req) = true ->
  (forall u : User,
     get tok st = Some u ->
     fst (update_location req st) = Success None
     /\ userStore (snd (update_location req st)) = userStore st
     /\ get tok (snd (update_location req st))
        = Some {| fcmToken := fcmToken u;
                  latitude := req_latitude req;
                  longitude := req_longitude req;
                  appOpen := coalesce (req_appOpen req) (JBool false);
                  lastAlertedTypes := lastAlertedTypes u |})
  /\ get tok (snd (register req st))
     = Some {| fcmToken := tok;
               latitude := req_latitude req;
               longitude := req_longitude req;
               appOpen := JBool false;
               lastAlertedTypes := [] |}
  /\ (Map_get tok (userStore st) = None ->
      lastAlertedTypes <$> get tok (snd (update_location req st)) = Some []).
Proof.
  intros Htok Hpre Hlat Hlon.
  assert (Hne : tok <> "") by (eapply prefix_nonempty; [|exact Hpre]; done).
  split; [|split].
  - intros u Hu. by apply update_location_present.
  - by apply register_stores_fresh.
  - intros Habs.
    destruct (update_location_absent req st tok Htok Hpre Hlat Hlon Habs) as [_ ->].
    reflexivity.
Qed.

Lemma upsert_alertedTypes_witness :
  get demo_token (snd (update_location demo_request demo_swept))
  = Some {| fcmToken := demo_token;
            latitude := JNum (285 # 10);
            longitude := JNum (772 # 10);
            appOpen := JBool false;
            lastAlertedTypes := ["AirQuality_danger"] |}.
Proof.
  pose proof (upsert_alertedTypes demo_request demo_swept demo_token
                eq_refl eq_refl eq_refl eq_refl) as [H _].
  exact (proj2 (proj2
    (H {| fcmToken := demo_token;
          latitude := JNum (285 # 10);
          longitude := JNum (772 # 10);
          appOpen := JBool false;
          lastAlertedTypes := ["AirQuality_danger"] |} eq_refl))).
Defined.

(** C9. A location update for a token that the registry does not have, with
    a token of the Expo format and coordinates that pass the presence check
    (any number but 0), answers success and stores the device with the given
    location, the given [appOpen] (false when the request has none) and no
    alerted types. *)
Theorem update_location_auto_registers (req : Body) (st : State) (tok : string) :
  req_fcmToken req = JStr tok ->
  String.prefix "ExponentPushToken[" tok = true ->
  truthy (req_latitude req) = true ->
  truthy (req_longitude req) = true ->
  Map_get tok (userStore st) = None ->
  fst (update_location req st) = Success (Some "Device auto-registered.")
  /\ get tok (snd (update_location req st))
     = Some {| fcmToken := tok;
               latitude := req_latitude req;
               longitude := req_longitude req;
               appOpen := coalesce (req_appOpen req) (JBool false);
               lastAlertedTypes := [] |}.
Proof. apply update_location_absent. Qed.

Lemma update_location_auto_registers_witness :
  fst (update_location demo_request empty_state) = Success (Some "Device auto-registered.")
  /\ get demo_token (snd (update_location demo_request empty_state))
     = Some {| fcmToken := demo_token;
               latitude := JNum (285 # 10);
               longitude := JNum (772 # 10);
               appOpen := JBool false;
               lastAlertedTypes := [] |}.
Proof.
  apply (update_location_auto_registers demo_request empty_state demo_token);
    reflexivity.
Defined.

(** C10. A request whose latitude or longitude is the number 0, or whose
    token is the empty string, is answered 400 by [/register] and by
    [/update-location], and by [/register] of the Firebase backend, and the
    store stays as it was. *)
Theorem zero_coordinate_rejected (req : Body) (st : State) :
  (exists q : Q, (q == 0)%Q /\ req_latitude req = JNum q)
  \/ (exists q : Q, (q == 0)%Q /\ req_longitude req = JNum q)
  \/ req_fcmToken req = JStr "" ->
  register req st
  = (Status400 "fcmToken, latitude, and longitude are required.", st)
  /\ update_location req st
     = (Status400 "fcmToken, latitude, and longitude are required.", st)
  /\ Legacy.register req st
     = Some (Status400 "fcmToken, latitude, longitude required", st).
Proof.
  intros H.
  assert (Hm : missing_fields req = true).
  { unfold missing_fields.
    destruct H as [(q & Hq & ->) | [(q & Hq & ->) | ->]]; cbn.
    - apply Qeq_bool_iff in Hq. rewrite Hq. cbn.
      by rewrite orb_true_r.
    - apply Qeq_bool_iff in Hq. rewrite Hq. cbn.
      by rewrite orb_true_r.
    - reflexivity. }
  unfold register, update_location, Legacy.register. by rewrite Hm.
Qed.

Lemma zero_coordinate_rejected_witness :
  register {| req_fcmToken := JStr demo_token; req_latitude := JNum 0;
              req_longitude := JNum (772 # 10); req_appOpen := JUndefined |}
           demo_swept
  = (Status400 "fcmToken, latitude, and longitude are required.", demo_swept)
  /\ update_location
       {| req_fcmToken := JStr demo_token; req_latitude := JNum 0;
          req_longitude := JNum (772 # 10); req_appOpen := JUndefined |}
       demo_swept
     = (Status400 "fcmToken, latitude, and longitude are required.", demo_swept)
  /\ Legacy.register
       {| req_fcmToken := JStr demo_token; req_latitude := JNum 0;
          req_longitude := JNum (772 # 10); req_appOpen := JUndefined |}
       demo_swept
     = Some (Status400 "fcmToken, latitude, longitude required", demo_swept).
Proof.
  apply zero_coordinate_rejected. left. exists 0%Q. split; reflexivity.
Defined.

(** * Properties of the sweep *)

Lemma Map_delete_idemp {V : Type} (k : string) (m : list (string * V)) :
  Map_delete k (Map_delete k m) = Map_delete k m.
Proof.
  induction m as [|[k' v'] m IH]; cbn; [done|].
  destruct (String.eqb k' k) eqn:E; cbn; [done | by rewrite E, IH].
Qed.

Lemma sendExpoPushNotification_spec (w : World) (k : string) (a : Alert)
    (st : State) (tr : list Event) :
  exists e : Event,
    is_post k e a
    /\ sendExpoPushNotification w k a (st, tr)
       = ({| userStore := if reply_invalid e
                          then Map_delete k (userStore st) else userStore st;
             heap := heap st |}, tr ++ [e]).
Proof.
  unfold sendExpoPushNotification.
  eexists (ExpoPost k _ a (expo w tr k a)). split; [by eexists _, _|].
  cbn [reply_invalid]. destruct st as [store hp]; cbn [userStore heap].
  destruct (expo w tr k a) as [|[[[s|] [e|]]|]]; cbn; try reflexivity;
    destruct (String.eqb s "error"); cbn; try reflexivity.
  destruct (String.eqb e "DeviceNotRegistered" || String.eqb e "InvalidCredentials");
    reflexivity.
Qed.

Lemma send_all_spec (w : World) (k : string) (alerts : list Alert)
    (st : State) (tr : list Event) :
  exists posts : list Event,
    Forall2 (is_post k) posts alerts
    /\ send_all w k alerts (st, tr)
       = ({| userStore := if existsb reply_invalid posts
                          then Map_delete k (userStore st) else userStore st;
             heap := heap st |}, tr ++ posts).
Proof.
  revert st tr. induction alerts as [|a alerts IH]; intros st tr.
  - exists []. split; [constructor|]. cbn. rewrite app_nil_r. by destruct st.
  - unfold send_all in *. cbn [fold_left].
    destruct (sendExpoPushNotification_spec w k a st tr) as (e & He & ->).
    destruct (IH {| userStore := if reply_invalid e
                                 then Map_delete k (userStore st) else userStore st;
                    heap := heap st |} (tr ++ [e])) as (posts & Hposts & ->).
    exists (e :: posts). split; [by constructor|].
    cbn [userStore heap existsb]. rewrite <- app_assoc. cbn [app]. f_equal. f_equal.
    destruct (reply_invalid e), (existsb reply_invalid posts); cbn;
      first [reflexivity | apply Map_delete_idemp].
Qed.

(** What one turn of the loop does, by cases on the object it was handed. *)
Lemma check_user_spec (w : World) (k : string) (r : ref) (st : State)
    (tr : list Event) (u : User) :
  heap st !! r = Some u ->
  if truthy (appOpen u) then check_user w k r (st, tr) = (st, tr)
  else
    exists (reply : GetReply) (posts : list Event),
      reply = (if prints (latitude u) && prints (longitude u)
               then weather w tr (latitude u) (longitude u) else GetThrows)
      /\ snd (check_user w k r (st, tr))
         = tr ++ WeatherGet k (latitude u) (longitude u) reply :: posts
      /\ match reply with
         | GetThrows => posts = [] /\ fst (check_user w k r (st, tr)) = st
         | GetReturns data =>
             Forall2 (is_post k) posts
               (fst (reconcile (evaluateRisk data) (lastAlertedTypes u)))
             /\ fst (check_user w k r (st, tr))
                = {| userStore := if existsb reply_invalid posts
                                  then Map_delete k (userStore st) else userStore st;
                     heap := alter (set_lastAlertedTypes
                               (snd (reconcile (evaluateRisk data) (lastAlertedTypes u))))
                               r (heap st) |}
         end.
Proof.
  intros Hu. unfold check_user. rewrite Hu.
  destruct (truthy (appOpen u)); [reflexivity|].
  destruct (if prints (latitude u) && prints (longitude u)
            then weather w tr (latitude u) (longitude u) else GetThrows)
    as [|data] eqn:Hw.
  - exists GetThrows, []. by repeat split.
  - destruct (reconcile (evaluateRisk data) (lastAlertedTypes u))
      as [newAlerts types] eqn:Hrec.
    destruct (send_all_spec w k newAlerts st
                (tr ++ [WeatherGet k (latitude u) (longitude u) (GetReturns data)]))
      as (posts & Hposts & ->).
    exists (GetReturns data), posts. rewrite Hrec. cbn [fst snd userStore heap].
    split; [reflexivity | split; [by rewrite <- app_assoc | by split]].
Qed.

(** ** A turn for one token leaves the others alone *)

Lemma user_events_app (k : string) (l1 l2 : list Event) :
  user_events k (l1 ++ l2) = user_events k l1 ++ user_events k l2.
Proof. apply List.filter_app. Qed.

Lemma user_events_posts_ne (k k' : string) (posts : list Event) (alerts : list Alert) :
  k <> k' -> Forall2 (is_post k') posts alerts -> user_events k posts = [].
Proof.
  intros Hne. induction 1 as [|e a posts alerts (t & rp & ->) _ IH]; [reflexivity|].
  cbn. apply not_eq_sym, String.eqb_neq in Hne. by rewrite Hne.
Qed.

Lemma user_events_posts_eq (k : string) (posts : list Event) (alerts : list Alert) :
  Forall2 (is_post k) posts alerts -> user_events k posts = posts.
Proof.
  induction 1 as [|e a posts alerts (t & rp & ->) _ IH]; [reflexivity|].
  cbn. rewrite String.eqb_refl. by f_equal.
Qed.

Lemma untouched_refl (k : string) (r : ref) (c : Config) : untouched k r c c.
Proof.
  split; [done | split; [done|]]. exists []. by rewrite app_nil_r.
Qed.

Lemma untouched_trans (k : string) (r : ref) (c1 c2 c3 : Config) :
  untouched k r c1 c2 -> untouched k r c2 c3 -> untouched k r c1 c3.
Proof.
  intros (Hm1 & Hh1 & e1 & Ht1 & He1) (Hm2 & Hh2 & e2 & Ht2 & He2).
  split; [congruence | split; [congruence|]].
  exists (e1 ++ e2). split.
  - by rewrite Ht2, Ht1, app_assoc.
  - by rewrite user_events_app, He1, He2.
Qed.

Lemma check_user_untouched (w : World) (k k' : string) (r r' : ref) (c : Config) :
  k <> k' -> r <> r' -> untouched k r c (check_user w k' r' c).
Proof.
  intros Hk Hr. destruct c as [st tr].
  destruct (heap st !! r') as [u|] eqn:Hu.
  2: { unfold check_user. rewrite Hu. apply untouched_refl. }
  pose proof (check_user_spec w k' r' st tr u Hu) as Hspec.
  destruct (truthy (appOpen u)); [rewrite Hspec; apply untouched_refl|].
  destruct Hspec as (reply & posts & _ & Htr & Hst).
  assert (Hev : forall alerts, Forall2 (is_post k') posts alerts ->
            user_events k (WeatherGet k' (latitude u) (longitude u) reply :: posts) = []).
  { intros alerts Hp. cbn. pose proof Hk as Hk2.
    apply not_eq_sym, String.eqb_neq in Hk2 as ->.
    eapply user_events_posts_ne; [exact Hk | exact Hp]. }
  destruct reply as [|data].
  - destruct Hst as [-> Hst]. unfold untouched. rewrite Hst, Htr.
    split; [done | split; [done|]]. eexists. split; [reflexivity|].
    by apply (Hev []).
  - destruct Hst as [Hposts Hst]. unfold untouched. rewrite Hst, Htr.
    cbn [fst snd userStore heap]. split; [|split].
    + destruct (existsb reply_invalid posts); [|done].
      apply Map_get_delete_ne. by intros ->.
    + apply list_lookup_alter_ne. by intros ->.
    + eexists. split; [reflexivity|]. by eapply Hev.
Qed.

Lemma for_entries_untouched (body : string -> ref -> Config -> Config)
    (k : string) (r : ref) (entries : list (string * ref)) (c : Config) :
  local_body body ->
  k ∉ entries.*1 -> r ∉ entries.*2 -> untouched k r c (for_entries body entries c).
Proof.
  intros Hbody.
  revert c. induction entries as [|[k' r'] entries IH]; intros c Hk Hr.
  - apply untouched_refl.
  - cbn in Hk, Hr. apply not_elem_of_cons in Hk as [Hk Hk'].
    apply not_elem_of_cons in Hr as [Hr Hr'].
    cbn [for_entries]. eapply untouched_trans; [|by apply IH].
    destruct (Map_get k' (userStore c.1)) as [r''|]; [|apply untouched_refl].
    destruct (Nat.eqb r'' r'); [|apply untouched_refl].
    by apply Hbody.
Qed.

Lemma for_entries_app (body : string -> ref -> Config -> Config)
    (l1 l2 : list (string * ref)) (c : Config) :
  for_entries body (l1 ++ l2) c = for_entries body l2 (for_entries body l1 c).
Proof.
  revert c. induction l1 as [|[k r] l1 IH]; intros c; [reflexivity|].
  cbn [app for_entries]. apply IH.
Qed.

(** The loop seen from one entry [(k, r)]: the turns before it and after it
    leave it alone, and its own turn is the body on it. *)
Lemma loop_locality (body : string -> ref -> Config -> Config)
    (c : Config) (k : string) (r : ref) :
  local_body body ->
  wf_store (fst c) ->
  Map_get k (userStore (fst c)) = Some r ->
  exists c1 : Config,
    untouched k r c c1
    /\ untouched k r (body k r c1)
         (if Nat.eqb (Map_size (userStore (fst c))) 0 then c
          else for_entries body (userStore (fst c)) c).
Proof.
  intros Hbody (Hkeys & Hrefs & _) Hget.
  pose proof (Map_get_Some_elem_of _ _ _ Hget) as Hin.
  apply list_elem_of_split in Hin as (pre & post & Hsplit).
  rewrite Hsplit in Hkeys, Hrefs.
  rewrite fmap_app in Hkeys. rewrite fmap_app in Hrefs.
  cbn in Hkeys, Hrefs.
  apply NoDup_app in Hkeys as (_ & Hk1 & Hk2). apply NoDup_cons in Hk2 as [Hk2 _].
  apply NoDup_app in Hrefs as (_ & Hr1 & Hr2). apply NoDup_cons in Hr2 as [Hr2 _].
  assert (Hkpre : k ∉ pre.*1).
  { intros Hin. apply (Hk1 _ Hin). apply list_elem_of_here. }
  assert (Hrpre : r ∉ pre.*2).
  { intros Hin. apply (Hr1 _ Hin). apply list_elem_of_here. }
  exists (for_entries body pre c).
  pose proof (for_entries_untouched body k r pre c Hbody Hkpre Hrpre) as Hpre.
  split; [exact Hpre|].
  rewrite Hsplit at 1.
  destruct (Nat.eqb (Map_size (pre ++ (k, r) :: post)) 0) eqn:Hsz.
  { apply Nat.eqb_eq in Hsz. unfold Map_size in Hsz.
    rewrite length_app in Hsz. cbn in Hsz. lia. }
  rewrite Hsplit, for_entries_app. cbn [for_entries].
  destruct Hpre as (Hm & _ & _). rewrite Hm, Hget, Nat.eqb_refl.
  by apply for_entries_untouched.
Qed.

Lemma get_inv (k : string) (st : State) (u : User) :
  get k st = Some u ->
  exists r : ref, Map_get k (userStore st) = Some r /\ heap st !! r = Some u.
Proof.
  unfold get. destruct (Map_get k (userStore st)) as [r|]; [|done].
  intros H. by exists r.
Qed.

Lemma check_user_local (w : World) : local_body (check_user w).
Proof. intros k k' r r' c. apply check_user_untouched. Qed.

(** The sweep seen from one entry [(k, r)]: the turns before it and after it
    leave it alone, and its own turn is [check_user] on it. *)
Lemma sweep_locality (w : World) (c : Config) (k : string) (r : ref) :
  wf_store (fst c) ->
  Map_get k (userStore (fst c)) = Some r ->
  exists c1 : Config,
    untouched k r c c1
    /\ untouched k r (check_user w k r c1) (checkAllUsers w c).
Proof. apply loop_locality, check_user_local. Qed.

(** What a whole sweep does to one entry, by cases on the object found in it
    when the sweep starts. *)
Lemma sweep_user_outcome (w : World) (st : State) (tr : list Event)
    (k : string) (r : ref) (u : User) :
  wf_store st ->
  Map_get k (userStore st) = Some r ->
  heap st !! r = Some u ->
  exists evs : list Event,
    snd (checkAllUsers w (st, tr)) = tr ++ evs
    /\ let st' := fst (checkAllUsers w (st, tr)) in
       if truthy (appOpen u) then
         user_events k evs = []
         /\ Map_get k (userStore st') = Some r /\ heap st' !! r = Some u
       else
         exists (reply : GetReply) (posts : list Event),
           user_events k evs
           = WeatherGet k (latitude u) (longitude u) reply :: posts
           /\ match reply with
              | GetThrows =>
                  posts = []
                  /\ Map_get k (userStore st') = Some r /\ heap st' !! r = Some u
              | GetReturns data =>
                  Forall2 (is_post k) posts
                    (fst (reconcile (evaluateRisk data) (lastAlertedTypes u)))
                  /\ Map_get k (userStore st')
                     = (if existsb reply_invalid posts then None else Some r)
                  /\ heap st' !! r
                     = Some (set_lastAlertedTypes
                               (snd (reconcile (evaluateRisk data) (lastAlertedTypes u))) u)
              end.
Proof.
  intros Hwf Hget Hu.
  destruct (sweep_locality w (st, tr) k r Hwf Hget) as ([st1 tr1] & Hpre & Hpost).
  destruct Hpre as (Hm1 & Hh1 & e1 & Ht1 & He1). cbn [fst snd] in Hm1, Hh1, Ht1.
  rewrite Hget in Hm1. rewrite Hu in Hh1.
  destruct Hpost as (Hm3 & Hh3 & e3 & Ht3 & He3).
  pose proof (check_user_spec w k r st1 tr1 u Hh1) as Hspec.
  destruct (truthy (appOpen u)).
  - rewrite Hspec in Hm3, Hh3, Ht3. cbn [fst snd] in Hm3, Hh3, Ht3.
    exists (e1 ++ e3). split; [by rewrite Ht3, Ht1, app_assoc|].
    cbn zeta. rewrite user_events_app, He1, He3, Hm3, Hh3. by repeat split.
  - destruct Hspec as (reply & posts & _ & Htr2 & Hst2).
    rewrite Htr2 in Ht3.
    exists (e1 ++ (WeatherGet k (latitude u) (longitude u) reply :: posts) ++ e3).
    split; [by rewrite Ht3, Ht1, <- !app_assoc|].
    cbn zeta. exists reply, posts.
    assert (Hev : forall alerts, Forall2 (is_post k) posts alerts ->
              user_events k
                (e1 ++ (WeatherGet k (latitude u) (longitude u) reply :: posts) ++ e3)
              = WeatherGet k (latitude u) (longitude u) reply :: posts).
    { intros alerts Hp. rewrite !user_events_app, He1, He3, app_nil_r. cbn.
      rewrite String.eqb_refl. f_equal. by eapply user_events_posts_eq. }
    rewrite Hm3, Hh3. destruct reply as [|data].
    + destruct Hst2 as [-> ->]. split; [by apply (Hev []) | by repeat split].
    + destruct Hst2 as [Hposts ->]. cbn [userStore heap].
      split; [by eapply Hev | split; [exact Hposts | split]].
      * destruct (existsb reply_invalid posts); [apply Map_get_delete_eq | done].
      * by rewrite list_lookup_alter_eq, Hh1.
Qed.

Lemma user_events_elem_of (k : string) (e : Event) (evs : list Event) :
  e ∈ evs -> event_user e = k -> e ∈ user_events k evs.
Proof.
  intros Hin Hk. apply list_elem_of_In, filter_In. split.
  - by apply list_elem_of_In.
  - by apply String.eqb_eq.
Qed.

Lemma existsb_reply_invalid (posts : list Event) (e : Event) :
  e ∈ posts -> reply_invalid e = true -> existsb reply_invalid posts = true.
Proof.
  intros Hin He. apply existsb_exists. exists e. split; [by apply list_elem_of_In | done].
Qed.

(** C5. A device whose [appOpen] is truthy when the sweep starts: the sweep
    makes no weather request and no push on its behalf, and afterwards the
    registry holds the same object for it, unchanged. *)
Theorem sweep_skips_open_app (w : World) (st : State) (tr : list Event)
    (k : string) (u : User) :
  wf_store st ->
  get k st = Some u ->
  truthy (appOpen u) = true ->
  exists evs : list Event,
    snd (checkAllUsers w (st, tr)) = tr ++ evs
    /\ user_events k evs = []
    /\ (forall e : Event, e ∈ evs -> event_user e <> k)
    /\ Map_get k (userStore (fst (checkAllUsers w (st, tr)))) = Map_get k (userStore st)
    /\ get k (fst (checkAllUsers w (st, tr))) = Some u.
Proof.
  intros Hwf Hget Hopen.
  destruct (get_inv k st u Hget) as (r & Hr & Hu).
  destruct (sweep_user_outcome w st tr k r u Hwf Hr Hu) as (evs & Htr & Hout).
  cbn zeta in Hout. rewrite Hopen in Hout. destruct Hout as (Hev & Hm & Hh).
  exists evs. split; [exact Htr | split; [exact Hev | split; [|split]]].
  - intros e Hin Hk. pose proof (user_events_elem_of k e evs Hin Hk) as H.
    rewrite Hev in H. by apply not_elem_of_nil in H.
  - by rewrite Hm, Hr.
  - unfold get. by rewrite Hm.
Qed.

(** ** The store invariant holds in every state the server can reach *)

Section JsMapShape.
Context {V : Type}.
Implicit Types (k : string) (v : V) (m : list (string * V)).

Lemma Map_delete_sublist k m : Map_delete k m `sublist_of` m.
Proof.
  induction m as [|[k' v'] m IH]; cbn; [done|].
  destruct (String.eqb k' k); [by apply sublist_cons | by apply sublist_skip].
Qed.

Lemma Map_set_present k v m (v0 : V) :
  Map_get k m = Some v0 ->
  (Map_set k v m).*1 = m.*1
  /\ forall x, x ∈ (Map_set k v m).*2 -> x = v \/ x ∈ m.*2.
Proof.
  induction m as [|[k' v'] m IH]; cbn; [done|].
  destruct (String.eqb k' k) eqn:E.
  - apply String.eqb_eq in E. subst k'. intros _. split; [done|].
    cbn. intros x [->|Hx]%elem_of_cons; [by left | right; by right].
  - intros H. destruct (IH H) as [IH1 IH2]. cbn. split; [by rewrite IH1|].
    intros x [->|Hx]%elem_of_cons; [right; by left|].
    destruct (IH2 x Hx) as [->|Hx']; [by left | right; by right].
Qed.

Lemma Map_set_absent k v m :
  Map_get k m = None -> Map_set k v m = m ++ [(k, v)].
Proof.
  induction m as [|[k' v'] m IH]; cbn; [done|].
  destruct (String.eqb k' k); [done|]. intros H. by rewrite IH.
Qed.

Lemma Map_set_elem_of k v m (x : string * V) :
  x ∈ Map_set k v m -> x = (k, v) \/ x ∈ m.
Proof.
  induction m as [|[k' v'] m IH]; cbn.
  - intros ->%list_elem_of_singleton. by left.
  - destruct (String.eqb k' k).
    + intros [->|Hx]%elem_of_cons; [by left | right; by right].
    + intros [->|Hx]%elem_of_cons; [right; by left|].
      destruct (IH Hx) as [->|Hx']; [by left | right; by right].
Qed.

Lemma Map_set_NoDup_keys k v m : NoDup m.*1 -> NoDup (Map_set k v m).*1.
Proof.
  intros Hnd. destruct (Map_get k m) as [v0|] eqn:Hg.
  - by destruct (Map_set_present k v m v0 Hg) as [-> _].
  - rewrite (Map_set_absent k v m Hg), fmap_app. cbn.
    apply NoDup_app. split; [done | split; [|apply NoDup_singleton]].
    intros x Hx ->%list_elem_of_singleton. by apply Map_get_None_keys in Hg.
Qed.
End JsMapShape.

Lemma Map_set_NoDup_refs (k : string) (v : ref) (m : list (string * ref)) :
  v ∉ m.*2 -> NoDup m.*2 -> NoDup (Map_set k v m).*2.
Proof.
  intros Hv. induction m as [|[k' v'] m IH]; cbn; intros Hnd.
  - apply NoDup_singleton.
  - cbn in Hv. apply not_elem_of_cons in Hv as [Hne Hv].
    apply NoDup_cons in Hnd as [Hv' Hnd].
    destruct (String.eqb k' k) eqn:E; cbn.
    + apply NoDup_cons. by split.
    + apply NoDup_cons. split; [|by apply IH].
      intros Hin. apply list_elem_of_fmap in Hin as ([k0 v0] & -> & Hin).
      apply Map_set_elem_of in Hin as [[= -> ->]|Hin]; [done|].
      apply Hv'. apply list_elem_of_fmap. by exists (k0, v0).
Qed.

Lemma wf_store_empty : wf_store empty_state.
Proof. repeat split; cbn; constructor. Qed.

(** Storing a newly made object under [k] keeps the invariant. *)
Lemma wf_store_set_new (k : string) (u : User) (st : State) :
  wf_store st ->
  wf_store {| userStore := Map_set k (alloc u (heap st)).1 (userStore st);
              heap := (alloc u (heap st)).2 |}.
Proof.
  intros (Hk & Hr & Hb). unfold alloc; cbn [fst snd].
  assert (Hfresh : length (heap st) ∉ (userStore st).*2).
  { intros Hin. apply list_elem_of_fmap in Hin as ([k0 r0] & Heq & Hin).
    rewrite Forall_forall in Hb. specialize (Hb _ Hin). cbn in Heq, Hb. lia. }
  split; [by apply Map_set_NoDup_keys | split; [by apply Map_set_NoDup_refs|]].
  cbn [userStore heap]. apply Forall_forall. intros [k0 r0] Hin.
  rewrite length_app; cbn.
  apply Map_set_elem_of in Hin as [[= -> ->]|Hin]; [lia|].
  rewrite Forall_forall in Hb. specialize (Hb _ Hin). cbn in Hb. lia.
Qed.

Lemma wf_store_register (req : Body) (st : State) :
  wf_store st -> wf_store (snd (register req st)).
Proof.
  intros Hwf. unfold register.
  destruct (missing_fields req); [done|].
  destruct (req_fcmToken req) as [| | | |tok|]; try done.
  destruct (negb (String.prefix "ExponentPushToken[" tok)); [done|].
  destruct (prints (req_latitude req) && prints (req_longitude req));
    by apply wf_store_set_new.
Qed.

Lemma wf_store_update_location (req : Body) (st : State) :
  wf_store st -> wf_store (snd (update_location req st)).
Proof.
  intros Hwf. unfold update_location.
  destruct (missing_fields req); [done|].
  destruct (req_fcmToken req) as [| | | |tok|]; try done.
  destruct (Map_get tok (userStore st)) as [r|].
  - destruct Hwf as (Hk & Hr & Hb). repeat split; cbn; [done | done|].
    by rewrite length_alter.
  - destruct (negb (String.prefix "ExponentPushToken[" tok)); [done|].
    by apply wf_store_set_new.
Qed.

Lemma wf_store_check_user (w : World) (k : string) (r : ref) (c : Config) :
  wf_store (fst c) -> wf_store (fst (check_user w k r c)).
Proof.
  destruct c as [st tr]. intros Hwf. cbn [fst] in Hwf.
  destruct (heap st !! r) as [u|] eqn:Hu.
  2: { unfold check_user. by rewrite Hu. }
  pose proof (check_user_spec w k r st tr u Hu) as Hspec.
  destruct (truthy (appOpen u)); [by rewrite Hspec|].
  destruct Hspec as (reply & posts & _ & _ & Hst).
  destruct reply as [|data]; [by destruct Hst as [_ ->]|].
  destruct Hst as [_ ->]. destruct Hwf as (Hk & Hr & Hb).
  assert (Hsub : (if existsb reply_invalid posts
                  then Map_delete k (userStore st) else userStore st)
                 `sublist_of` userStore st).
  { destruct (existsb reply_invalid posts); [apply Map_delete_sublist | done]. }
  repeat split; cbn [userStore heap].
  - eapply sublist_NoDup; [exact Hk | by apply fmap_sublist].
  - eapply sublist_NoDup; [exact Hr | by apply fmap_sublist].
  - rewrite length_alter. apply Forall_forall. intros x Hx.
    rewrite Forall_forall in Hb. apply Hb. by eapply elem_of_sublist.
Qed.

Lemma wf_store_for_entries (body : string -> ref -> Config -> Config)
    (entries : list (string * ref)) (c : Config) :
  (forall k r c, wf_store (fst c) -> wf_store (fst (body k r c))) ->
  wf_store (fst c) -> wf_store (fst (for_entries body entries c)).
Proof.
  intros Hbody.
  revert c. induction entries as [|[k r] entries IH]; intros c Hwf; [done|].
  cbn [for_entries]. apply IH.
  destruct (Map_get k (userStore c.1)) as [r'|]; [|done].
  destruct (Nat.eqb r' r); [by apply Hbody | done].
Qed.

Lemma wf_store_checkAllUsers (w : World) (c : Config) :
  wf_store (fst c) -> wf_store (fst (checkAllUsers w c)).
Proof.
  intros Hwf. unfold checkAllUsers.
  destruct (Nat.eqb _ 0); [done|].
  apply wf_store_for_entries; [|done]. apply wf_store_check_user.
Qed.

Lemma sweep_skips_open_app_witness :
  exists evs : list Event,
    snd (checkAllUsers hazy_world (demo_open, [])) = [] ++ evs
    /\ user_events demo_token evs = []
    /\ (forall e : Event, e ∈ evs -> event_user e <> demo_token)
    /\ Map_get demo_token (userStore (fst (checkAllUsers hazy_world (demo_open, []))))
       = Map_get demo_token (userStore demo_open)
    /\ get demo_token (fst (checkAllUsers hazy_world (demo_open, [])))
       = Some {| fcmToken := demo_token;
                 latitude := JNum (285 # 10);
                 longitude := JNum (772 # 10);
                 appOpen := JBool true;
                 lastAlertedTypes := [] |}.
Proof.
  apply (sweep_skips_open_app hazy_world demo_open [] demo_token).
  - apply wf_store_update_location, wf_store_empty.
  - reflexivity.
  - reflexivity.
Defined.

(** C7. A registered device whose app is not open gets its weather request
    in every sweep, whatever the collaborators answered for the devices
    before it.  When that request fails, nothing is pushed for the device
    and the registry holds the same object for it, unchanged.  When no push
    for it reports the token as permanently invalid (pushes may have thrown
    or reported other errors), the device stays registered with its location
    and [appOpen] unchanged. *)
Theorem sweep_isolates_failures (w : World) (st : State) (tr : list Event)
    (k : string) (u : User) :
  wf_store st ->
  get k st = Some u ->
  truthy (appOpen u) = false ->
  exists (evs : list Event) (reply : GetReply) (posts : list Event),
    snd (checkAllUsers w (st, tr)) = tr ++ evs
    /\ user_events k evs = WeatherGet k (latitude u) (longitude u) reply :: posts
    /\ (reply = GetThrows ->
        posts = []
        /\ Map_get k (userStore (fst (checkAllUsers w (st, tr))))
           = Map_get k (userStore st)
        /\ get k (fst (checkAllUsers w (st, tr))) = Some u)
    /\ (existsb reply_invalid posts = false ->
        exists u' : User,
          get k (fst (checkAllUsers w (st, tr))) = Some u'
          /\ fcmToken u' = fcmToken u /\ latitude u' = latitude u
          /\ longitude u' = longitude u /\ appOpen u' = appOpen u).
Proof.
  intros Hwf Hget Hopen.
  destruct (get_inv k st u Hget) as (r & Hr & Hu).
  destruct (sweep_user_outcome w st tr k r u Hwf Hr Hu) as (evs & Htr & Hout).
  cbn zeta in Hout. rewrite Hopen in Hout.
  destruct Hout as (reply & posts & Hev & Hout).
  exists evs, reply, posts. split; [exact Htr | split; [exact Hev|]].
  unfold get. destruct reply as [|data].
  - destruct Hout as (-> & Hm & Hh). rewrite Hm, Hr. split.
    + intros _. by repeat split.
    + intros _. exists u. by repeat split.
  - destruct Hout as (_ & Hm & Hh). split; [done|].
    intros Hno. rewrite Hno in Hm. rewrite Hm. eexists. split; [exact Hh|].
    by repeat split.
Qed.

Lemma sweep_isolates_failures_witness :
  exists (evs : list Event) (reply : GetReply) (posts : list Event),
    snd (checkAllUsers offline_world (demo_swept, [])) = [] ++ evs
    /\ user_events demo_token evs
       = WeatherGet demo_token (JNum (285 # 10)) (JNum (772 # 10)) reply :: posts
    /\ (reply = GetThrows ->
        posts = []
        /\ Map_get demo_token (userStore (fst (checkAllUsers offline_world (demo_swept, []))))
           = Map_get demo_token (userStore demo_swept)
        /\ get demo_token (fst (checkAllUsers offline_world (demo_swept, [])))
           = Some {| fcmToken := demo_token;
                     latitude := JNum (285 # 10);
                     longitude := JNum (772 # 10);
                     appOpen := JBool false;
                     lastAlertedTypes := ["AirQuality_danger"] |})
    /\ (existsb reply_invalid posts = false ->
        exists u' : User,
          get demo_token (fst (checkAllUsers offline_world (demo_swept, []))) = Some u'
          /\ fcmToken u' = demo_token /\ latitude u' = JNum (285 # 10)
          /\ longitude u' = JNum (772 # 10) /\ appOpen u' = JBool false).
Proof.
  apply (sweep_isolates_failures offline_world demo_swept [] demo_token
           {| fcmToken := demo_token;
              latitude := JNum (285 # 10);
              longitude := JNum (772 # 10);
              appOpen := JBool false;
              lastAlertedTypes := ["AirQuality_danger"] |}).
  - apply (wf_store_checkAllUsers hazy_world (demo_registered, [])).
    apply wf_store_register, wf_store_empty.
  - reflexivity.
  - reflexivity.
Defined.

(** C8, as stated, fails in its second half: the push for the demo device
    is answered DeviceNotRegistered and the entry is removed, yet the
    assignment to [lastAlertedTypes] still runs, on the object the loop
    holds: its alerted types go from none to [AirQuality_danger]. *)
Lemma disowned_object_still_updated :
  get demo_token demo_registered
  = Some {| fcmToken := demo_token;
            latitude := JNum (285 # 10);
            longitude := JNum (772 # 10);
            appOpen := JBool false;
            lastAlertedTypes := [] |}
  /\ Map_get demo_token (userStore demo_registered) = Some 0
  /\ existsb reply_invalid
       (user_events demo_token (snd (checkAllUsers disowning_world (demo_registered, []))))
     = true
  /\ get demo_token demo_disowned = None
  /\ lastAlertedTypes <$> heap demo_disowned !! 0 = Some ["AirQuality_danger"]
  /\ lastAlertedTypes <$> heap demo_disowned !! 0
     <> lastAlertedTypes <$> heap demo_registered !! 0.
Proof. vm_compute. repeat split; discriminate. Qed.

(** C8, amended.  When a push made for a device during the sweep reports its
    token as permanently invalid, the registry has no entry for the token
    afterwards, so a later [get] finds nothing.  The assignment to
    [lastAlertedTypes] is not skipped: it is made on the object the loop
    holds, which the registry no longer reaches. *)
Theorem invalid_token_removed (w : World) (st : State) (tr : list Event)
    (k : string) (r : ref) (u : User) (evs : list Event) (e : Event) :
  wf_store st ->
  Map_get k (userStore st) = Some r ->
  heap st !! r = Some u ->
  snd (checkAllUsers w (st, tr)) = tr ++ evs ->
  e ∈ evs -> event_user e = k -> reply_invalid e = true ->
  Map_get k (userStore (fst (checkAllUsers w (st, tr)))) = None
  /\ get k (fst (checkAllUsers w (st, tr))) = None
  /\ exists data : option WeatherData,
       WeatherGet k (latitude u) (longitude u) (GetReturns data) ∈ evs
       /\ heap (fst (checkAllUsers w (st, tr))) !! r
          = Some (set_lastAlertedTypes
                    (List.map type (List.filter is_severe_or_danger (evaluateRisk data))) u).
Proof.
  intros Hwf Hr Hu Htr Hin Hk Hinv.
  destruct (sweep_user_outcome w st tr k r u Hwf Hr Hu) as (evs' & Htr' & Hout).
  rewrite Htr in Htr'. apply app_inv_head in Htr'. subst evs'.
  pose proof (user_events_elem_of k e evs Hin Hk) as Hue.
  assert (Hsub : forall x, x ∈ user_events k evs -> x ∈ evs).
  { intros x Hx. apply list_elem_of_In, filter_In in Hx as [Hx _].
    by apply list_elem_of_In. }
  cbn zeta in Hout. destruct (truthy (appOpen u)).
  { destruct Hout as (Hev & _). rewrite Hev in Hue. by apply not_elem_of_nil in Hue. }
  destruct Hout as (reply & posts & Hev & Hout). rewrite Hev in Hue.
  assert (Hpost : e ∈ posts).
  { apply elem_of_cons in Hue as [->|Hue]; [cbn in Hinv; discriminate Hinv | exact Hue]. }
  destruct reply as [|data].
  { destruct Hout as (-> & _). by apply not_elem_of_nil in Hpost. }
  destruct Hout as (_ & Hm & Hh).
  rewrite (existsb_reply_invalid posts e Hpost Hinv) in Hm.
  split; [exact Hm | split; [unfold get; by rewrite Hm|]].
  exists data. split; [|exact Hh].
  apply Hsub. rewrite Hev. apply list_elem_of_here.
Qed.

Lemma invalid_token_removed_witness :
  Map_get demo_token (userStore demo_disowned) = None
  /\ get demo_token demo_disowned = None
  /\ exists data : option WeatherData,
       WeatherGet demo_token (JNum (285 # 10)) (JNum (772 # 10)) (GetReturns data)
       ∈ snd (checkAllUsers disowning_world (demo_registered, []))
       /\ heap demo_disowned !! 0
          = Some (set_lastAlertedTypes
                    (List.map type (List.filter is_severe_or_danger (evaluateRisk data)))
                    {| fcmToken := demo_token;
                       latitude := JNum (285 # 10);
                       longitude := JNum (772 # 10);
                       appOpen := JBool false;
                       lastAlertedTypes := [] |}).
Proof.
  eapply (invalid_token_removed disowning_world demo_registered [] demo_token 0
            {| fcmToken := demo_token;
               latitude := JNum (285 # 10);
               longitude := JNum (772 # 10);
               appOpen := JBool false;
               lastAlertedTypes := [] |}).
  - apply wf_store_register, wf_store_empty.
  - reflexivity.
  - reflexivity.
  - reflexivity.
  - apply list_elem_of_further, list_elem_of_here.
  - reflexivity.
  - reflexivity.
Defined.

(** C2. When the weather request for a device returns during a sweep, the
    object of the device ends the sweep with [lastAlertedTypes] equal to the
    types of the alerts classified severe or danger from that response, in
    their order, whatever the array held before; a device still registered
    is found with exactly that array.  With no active alert and prior types
    [A] nothing is pushed and the new array is empty; an active alert of
    type [A] with an empty prior array is pushed again. *)
Theorem alertedTypes_replaced_each_sweep (w : World) (st : State) (tr : list Event)
    (k : string) (r : ref) (u : User) (evs : list Event) (data : option WeatherData)
    (lat lon : JsVal) :
  wf_store st ->
  Map_get k (userStore st) = Some r ->
  heap st !! r = Some u ->
  snd (checkAllUsers w (st, tr)) = tr ++ evs ->
  WeatherGet k lat lon (GetReturns data) ∈ evs ->
  let types := List.map type (List.filter is_severe_or_danger (evaluateRisk data)) in
  heap (fst (checkAllUsers w (st, tr))) !! r = Some (set_lastAlertedTypes types u)
  /\ (forall u' : User,
        get k (fst (checkAllUsers w (st, tr))) = Some u' ->
        lastAlertedTypes u' = types)
  /\ (forall A : string, reconcile [] [A] = ([], []))
  /\ (forall a : Alert,
        is_severe_or_danger a = true -> reconcile [a] [] = ([a], [type a])).
Proof.
  intros Hwf Hr Hu Htr Hin types.
  destruct (sweep_user_outcome w st tr k r u Hwf Hr Hu) as (evs' & Htr' & Hout).
  rewrite Htr in Htr'. apply app_inv_head in Htr'. subst evs'.
  pose proof (user_events_elem_of k _ evs Hin eq_refl) as Hue.
  cbn zeta in Hout. destruct (truthy (appOpen u)).
  { destruct Hout as (Hev & _). rewrite Hev in Hue. by apply not_elem_of_nil in Hue. }
  destruct Hout as (reply & posts & Hev & Hout). rewrite Hev in Hue.
  assert (Hreply : reply = GetReturns data).
  { apply elem_of_cons in Hue as [[= _ _ <-]|Hue]; [reflexivity|].
    destruct reply as [|data']; [destruct Hout as (-> & _); by apply not_elem_of_nil in Hue|].
    destruct Hout as (Hposts & _). exfalso. clear -Hposts Hue.
    induction Hposts as [|p a posts alerts (t & rp & ->) _ IH].
    - by apply not_elem_of_nil in Hue.
    - apply elem_of_cons in Hue as [Heq|Hue]; [discriminate Heq | by apply IH]. }
  subst reply. destruct Hout as (_ & Hm & Hh).
  split; [exact Hh | split; [|split]].
  - intros u'. unfold get. rewrite Hm.
    destruct (existsb reply_invalid posts); [done|].
    rewrite Hh. by intros [= <-].
  - reflexivity.
  - intros a Ha. unfold reconcile. cbn. rewrite Ha. reflexivity.
Qed.

Lemma alertedTypes_replaced_each_sweep_witness :
  let types :=
    List.map type
      (List.filter is_severe_or_danger
         (evaluateRisk (snapshot (Some 60%Q) (Some 1%Q) (Some 10%Q) (Some 10%Q) None))) in
  heap (fst (checkAllUsers hazy_world (demo_registered, []))) !! 0
  = Some (set_lastAlertedTypes types
            {| fcmToken := demo_token;
               latitude := JNum (285 # 10);
               longitude := JNum (772 # 10);
               appOpen := JBool false;
               lastAlertedTypes := [] |})
  /\ (forall u' : User,
        get demo_token (fst (checkAllUsers hazy_world (demo_registered, []))) = Some u' ->
        lastAlertedTypes u' = types)
  /\ (forall A : string, reconcile [] [A] = ([], []))
  /\ (forall a : Alert,
        is_severe_or_danger a = true -> reconcile [a] [] = ([a], [type a])).
Proof.
  eapply (alertedTypes_replaced_each_sweep hazy_world demo_registered [] demo_token 0
            {| fcmToken := demo_token;
               latitude := JNum (285 # 10);
               longitude := JNum (772 # 10);
               appOpen := JBool false;
               lastAlertedTypes := [] |}).
  - apply wf_store_register, wf_store_empty.
  - reflexivity.
  - reflexivity.
  - reflexivity.
  - apply list_elem_of_here.
Defined.

(** The scenario of the specification: with the app closed and pm25 at 60,
    the first sweep makes one weather request and one push, of type
    [AirQuality_danger], and records that type; a second sweep with the same
    readings makes the weather request and no push, and the recorded types
    stay. *)
Example end_to_end_scenario :
  List.map (fun e => match e with
                     | ExpoPost to _ a _ => Some (to, type a)
                     | _ => None
                     end)
    (snd (checkAllUsers hazy_world (demo_registered, [])))
  = [None; Some (demo_token, "AirQuality_danger")]
  /\ lastAlertedTypes <$> get demo_token demo_swept = Some ["AirQuality_danger"]
  /\ List.map reply_invalid
       (snd (checkAllUsers hazy_world
               (demo_swept, snd (checkAllUsers hazy_world (demo_registered, [])))))
     = [false; false; false]
  /\ List.filter (fun e => match e with ExpoPost _ _ _ _ => true | _ => false end)
       (snd (checkAllUsers hazy_world (demo_swept, [])))
     = []
  /\ lastAlertedTypes
       <$> get demo_token (fst (checkAllUsers hazy_world (demo_swept, [])))
     = Some ["AirQuality_danger"].
Proof. vm_compute. repeat split. Qed.

(** * The Firebase backend *)

(** [/update-location] answers 404 for a token it does not know and stores
    nothing. *)
Lemma legacy_update_location_unknown (req : Body) (st : State) (tok : string) :
  req_fcmToken req = JStr tok ->
  Map_get tok (userStore st) = None ->
  Legacy.update_location req st = (Status404 "Device not registered", st).
Proof.
  intros Htok Habs. unfold Legacy.update_location. rewrite Htok, Habs.
  by destruct (negb (truthy (JStr tok))).
Qed.

(** [/update-location] on a known token overwrites the two coordinates,
    whatever they are, and nothing else. *)
Lemma legacy_update_location_known (req : Body) (st : State) (tok : string) (u : User) :
  req_fcmToken req = JStr tok ->
  tok <> "" ->
  get tok st = Some u ->
  fst (Legacy.update_location req st) = Success None
  /\ get tok (snd (Legacy.update_location req st))
     = Some {| fcmToken := fcmToken u;
               latitude := req_latitude req;
               longitude := req_longitude req;
               appOpen := appOpen u;
               lastAlertedTypes := lastAlertedTypes u |}.
Proof.
  intros Htok Hne Hget. unfold Legacy.update_location. rewrite Htok. cbn.
  apply String.eqb_neq in Hne as ->. cbn. unfold get in *.
  destruct (Map_get tok (userStore st)) as [r|] eqn:Hr; [|discriminate Hget].
  cbn. rewrite Hr. split; [reflexivity|].
  by rewrite list_lookup_alter_eq, Hget.
Qed.

(** [/register] applies the same presence check as the Expo backend. *)
Lemma legacy_register_missing (req : Body) (st : State) :
  missing_fields req = true ->
  Legacy.register req st
  = Some (Status400 "fcmToken, latitude, longitude required", st).
Proof. intros Hm. unfold Legacy.register. by rewrite Hm. Qed.

(** [/register] of the Firebase backend with a token that is a string and
    passes the presence check, whatever its format: a new object with the
    coordinates of the request and no alerted types is stored under it,
    whether or not the token was registered.  The answer is success when both
    coordinates print; otherwise the log line throws after the set, so the
    answer is the 500 of the framework and the device is stored all the
    same. *)
Lemma legacy_register_stores_fresh (req : Body) (st : State) (tok : string) :
  req_fcmToken req = JStr tok ->
  missing_fields req = false ->
  exists st' : State,
    Legacy.register req st
    = Some (if prints (req_latitude req) && prints (req_longitude req)
            then Success (Some "Device registered for alerts") else Throws, st')
    /\ get tok st'
       = Some {| fcmToken := tok;
                 latitude := req_latitude req;
                 longitude := req_longitude req;
                 appOpen := JUndefined;
                 lastAlertedTypes := [] |}.
Proof.
  intros Htok Hm. unfold Legacy.register. rewrite Hm, Htok. cbn.
  eexists. split.
  - destruct (prints (req_latitude req) && prints (req_longitude req)); reflexivity.
  - unfold get; cbn. rewrite Map_get_set_eq.
    by rewrite lookup_app_r, Nat.sub_diag.
Qed.

Lemma legacy_sendPushNotification_spec (w : Legacy.World) (k : string) (a : Alert)
    (st : State) (tr : list Event) :
  exists title : string,
    Legacy.sendPushNotification w k a (st, tr)
    = ({| userStore := if invalid_registration (Legacy.fcm w tr k a)
                       then Map_delete k (userStore st) else userStore st;
          heap := heap st |},
       tr ++ [FcmSend k title a (Legacy.fcm w tr k a)]).
Proof.
  unfold Legacy.sendPushNotification. eexists.
  destruct st as [store hp]; cbn [userStore heap].
  destruct (Legacy.fcm w tr k a) as [|[c|]]; cbn; try reflexivity.
  destruct (String.eqb c "messaging/invalid-registration-token"
            || String.eqb c "messaging/registration-token-not-registered");
    reflexivity.
Qed.

(** A rejected send with one of the two codes removes the entry. *)
Lemma legacy_invalid_token_removed (w : Legacy.World) (k : string) (a : Alert)
    (st : State) (tr : list Event) :
  invalid_registration (Legacy.fcm w tr k a) = true ->
  get k (fst (Legacy.sendPushNotification w k a (st, tr))) = None.
Proof.
  intros Hc. destruct (legacy_sendPushNotification_spec w k a st tr) as (t & ->).
  rewrite Hc. unfold get; cbn. by rewrite Map_get_delete_eq.
Qed.

(** A failed weather request leaves the store as it was. *)
Lemma legacy_check_user_fetch_fails (w : Legacy.World) (k : string) (r : ref)
    (st : State) (tr : list Event) (u : User) :
  heap st !! r = Some u ->
  Legacy.weather w tr (latitude u) (longitude u) = GetThrows ->
  Legacy.check_user w k r (st, tr)
  = (st, tr ++ [WeatherGet k (latitude u) (longitude u) GetThrows]).
Proof.
  intros Hu Hw. unfold Legacy.check_user. rewrite Hu, Hw.
  by destruct (prints (latitude u) && prints (longitude u)).
Qed.

Lemma legacy_send_all_spec (w : Legacy.World) (k : string) (alerts : list Alert)
    (st : State) (tr : list Event) :
  exists sends : list Event,
    Forall2 (is_send k) sends alerts
    /\ Legacy.send_all w k alerts (st, tr)
       = ({| userStore := if existsb reply_invalid sends
                          then Map_delete k (userStore st) else userStore st;
             heap := heap st |}, tr ++ sends).
Proof.
  revert st tr. induction alerts as [|a alerts IH]; intros st tr.
  - exists []. split; [constructor|]. cbn. rewrite app_nil_r. by destruct st.
  - unfold Legacy.send_all in *. cbn [fold_left].
    destruct (legacy_sendPushNotification_spec w k a st tr) as (t & ->).
    set (e := FcmSend k t a (Legacy.fcm w tr k a)).
    destruct (IH {| userStore := if invalid_registration (Legacy.fcm w tr k a)
                                 then Map_delete k (userStore st) else userStore st;
                    heap := heap st |} (tr ++ [e])) as (sends & Hsends & ->).
    exists (e :: sends). split; [constructor; [by eexists _, _ | done]|].
    cbn [userStore heap existsb reply_invalid e]. rewrite <- app_assoc. cbn [app].
    f_equal. f_equal.
    destruct (invalid_registration _), (existsb reply_invalid sends); cbn;
      first [reflexivity | apply Map_delete_idemp].
Qed.

(** What one turn of the Firebase loop does. *)
Lemma legacy_check_user_spec (w : Legacy.World) (k : string) (r : ref) (st : State)
    (tr : list Event) (u : User) :
  heap st !! r = Some u ->
  exists (reply : GetReply) (sends : list Event),
    reply = (if prints (latitude u) && prints (longitude u)
             then Legacy.weather w tr (latitude u) (longitude u) else GetThrows)
    /\ snd (Legacy.check_user w k r (st, tr))
       = tr ++ WeatherGet k (latitude u) (longitude u) reply :: sends
    /\ match reply with
       | GetThrows => sends = [] /\ fst (Legacy.check_user w k r (st, tr)) = st
       | GetReturns data =>
           Forall2 (is_send k) sends
             (fst (reconcile (evaluateRisk data) (lastAlertedTypes u)))
           /\ fst (Legacy.check_user w k r (st, tr))
              = {| userStore := if existsb reply_invalid sends
                                then Map_delete k (userStore st) else userStore st;
                   heap := alter (set_lastAlertedTypes
                             (snd (reconcile (evaluateRisk data) (lastAlertedTypes u))))
                             r (heap st) |}
       end.
Proof.
  intros Hu. unfold Legacy.check_user. rewrite Hu.
  destruct (if prints (latitude u) && prints (longitude u)
            then Legacy.weather w tr (latitude u) (longitude u) else GetThrows)
    as [|data] eqn:Hw.
  - exists GetThrows, []. by repeat split.
  - destruct (reconcile (evaluateRisk data) (lastAlertedTypes u))
      as [newAlerts types] eqn:Hrec.
    destruct (legacy_send_all_spec w k newAlerts st
                (tr ++ [WeatherGet k (latitude u) (longitude u) (GetReturns data)]))
      as (sends & Hsends & ->).
    exists (GetReturns data), sends. rewrite Hrec. cbn [fst snd userStore heap].
    split; [reflexivity | split; [by rewrite <- app_assoc | by split]].
Qed.

(** * Further properties of the risk engine *)

Lemma num_gt_lt (a b : Q) : num_gt a b = true <-> (b < a)%Q.
Proof.
  unfold num_gt. rewrite negb_true_iff, <- not_true_iff_false, Qle_bool_iff.
  split; [apply Qnot_le_lt | apply Qlt_not_le].
Qed.

Lemma num_gt_le (a b : Q) : num_gt a b = false <-> (a <= b)%Q.
Proof. unfold num_gt. by rewrite negb_false_iff, Qle_bool_iff. Qed.

Lemma num_lt_lt (a b : Q) : num_lt a b = true <-> (a < b)%Q.
Proof.
  unfold num_lt. rewrite negb_true_iff, <- not_true_iff_false, Qle_bool_iff.
  split; [apply Qnot_le_lt | apply Qlt_not_le].
Qed.

Lemma num_lt_le (a b : Q) : num_lt a b = false <-> (b <= a)%Q.
Proof. unfold num_lt. by rewrite negb_false_iff, Qle_bool_iff. Qed.

(** The alert types of a complete response, metric by metric. *)
Lemma evaluateRisk_types (p u t v : Q) (wd : option Q) :
  List.map type (evaluateRisk (snapshot (Some p) (Some u) (Some t) (Some v) wd))
  = (if num_gt p RISK_LIMITS.PM25_DANGER then ["AirQuality_danger"]
     else if num_gt p RISK_LIMITS.PM25_SEVERE then ["AirQuality_severe"] else [])
    ++ (if num_gt u RISK_LIMITS.UV_DANGER then ["UV_danger"] else [])
    ++ (if num_gt t RISK_LIMITS.TEMP_DANGER then ["Temp_danger"] else [])
    ++ (if num_lt v RISK_LIMITS.VISIBILITY_DANGER then ["Visibility_danger"] else [])
    ++ (match wd with
        | Some w => if num_gt w RISK_LIMITS.WIND_DANGER then ["Wind_danger"] else []
        | None => []
        end).
Proof.
  unfold evaluateRisk, snapshot;
    cbn [chain current air_quality pm2_5 uv temp_c vis_km wind_kph].
  destruct (num_gt p RISK_LIMITS.PM25_DANGER), (num_gt p RISK_LIMITS.PM25_SEVERE),
    (num_gt u RISK_LIMITS.UV_DANGER), (num_gt t RISK_LIMITS.TEMP_DANGER),
    (num_lt v RISK_LIMITS.VISIBILITY_DANGER), wd as [w|];
    try destruct (num_gt w RISK_LIMITS.WIND_DANGER); reflexivity.
Qed.

Lemma gate_closed_no_types (data : option WeatherData) :
  gate_open data = false -> evaluateRisk data = [].
Proof.
  intros Hg. apply evaluateRisk_gate. unfold gate_open in Hg.
  destruct (reading_pm25 data); [|by left].
  destruct (reading_uv data); [|by right; left].
  destruct (reading_temp data); [|by right; right; left].
  destruct (reading_visibility data); [discriminate Hg | by right; right; right].
Qed.

Lemma gate_open_readings (data : option WeatherData) :
  gate_open data = true ->
  exists p u t v : Q,
    reading_pm25 data = Some p /\ reading_uv data = Some u
    /\ reading_temp data = Some t /\ reading_visibility data = Some v.
Proof.
  unfold gate_open.
  destruct (reading_pm25 data) as [p|], (reading_uv data) as [u|],
    (reading_temp data) as [t|], (reading_visibility data) as [v|]; try done.
  intros _. by exists p, u, t, v.
Qed.

(** Whether a given type is among the alerts of a complete response. *)
Lemma includes_types (p u t v : Q) (wd : option Q) (x : string) :
  includes
    (List.map type (evaluateRisk (snapshot (Some p) (Some u) (Some t) (Some v) wd))) x
  = (if num_gt p RISK_LIMITS.PM25_DANGER then String.eqb x "AirQuality_danger"
     else if num_gt p RISK_LIMITS.PM25_SEVERE then String.eqb x "AirQuality_severe"
     else false)
    || ((num_gt u RISK_LIMITS.UV_DANGER && String.eqb x "UV_danger")
    || ((num_gt t RISK_LIMITS.TEMP_DANGER && String.eqb x "Temp_danger")
    || ((num_lt v RISK_LIMITS.VISIBILITY_DANGER && String.eqb x "Visibility_danger")
    || (match wd with
        | Some w => num_gt w RISK_LIMITS.WIND_DANGER && String.eqb x "Wind_danger"
        | None => false
        end)))).
Proof.
  rewrite evaluateRisk_types. unfold includes.
  destruct (num_gt p RISK_LIMITS.PM25_DANGER), (num_gt p RISK_LIMITS.PM25_SEVERE),
    (num_gt u RISK_LIMITS.UV_DANGER), (num_gt t RISK_LIMITS.TEMP_DANGER),
    (num_lt v RISK_LIMITS.VISIBILITY_DANGER), wd as [w|];
    try destruct (num_gt w RISK_LIMITS.WIND_DANGER);
    cbn; rewrite ?orb_false_r; reflexivity.
Qed.

(** Case analysis on every comparison left in the goal. *)
Ltac flags :=
  repeat match goal with
         | |- context [num_gt ?a ?b] => destruct (num_gt a b)
         | |- context [num_lt ?a ?b] => destruct (num_lt a b)
         | |- context [match ?o with Some _ => _ | None => _ end] => destruct o
         end;
  cbn; rewrite ?andb_false_r, ?orb_true_r; try reflexivity.

(** The engine never emits two alerts of one type, and never more than five
    alerts. *)
Theorem classify_types_distinct (data : option WeatherData) :
  NoDup (List.map type (evaluateRisk data))
  /\ length (evaluateRisk data) <= 5.
Proof.
  destruct (evaluateRisk_order data) as (air & Hair & Hsub).
  assert (Hnd : NoDup (evaluation_order air)).
  { unfold evaluation_order.
    destruct Hair as [-> | ->]; repeat (apply NoDup_cons; split);
      try apply NoDup_nil_2; rewrite ?elem_of_cons; rewrite ?elem_of_nil;
      intros H; repeat destruct H as [H|H]; try discriminate H; done. }
  split; [by eapply sublist_NoDup|].
  apply sublist_length in Hsub. by rewrite length_map in Hsub.
Qed.

Lemma emits_includes (data : option WeatherData) (x : string) :
  x ∈ List.map type (evaluateRisk data) <->
  exists p u t v : Q,
    reading_pm25 data = Some p /\ reading_uv data = Some u
    /\ reading_temp data = Some t /\ reading_visibility data = Some v
    /\ includes
         (List.map type
            (evaluateRisk (snapshot (Some p) (Some u) (Some t) (Some v) (reading_wind data))))
         x = true.
Proof.
  rewrite <- includes_elem_of. destruct (gate_open data) eqn:Hg.
  - destruct (gate_open_readings data Hg) as (p & u & t & v & Hp & Hu & Ht & Hv).
    rewrite (evaluateRisk_readings data), Hp, Hu, Ht, Hv. split.
    + intros H. by exists p, u, t, v.
    + by intros (p' & u' & t' & v' & [= <-] & [= <-] & [= <-] & [= <-] & H).
  - rewrite (gate_closed_no_types data Hg). split; [done|].
    intros (p & u & t & v & Hp & Hu & Ht & Hv & _).
    unfold gate_open in Hg. by rewrite Hp, Hu, Ht, Hv in Hg.
Qed.

(** The two air-quality tiers: with the four required readings present, a
    danger alert is emitted exactly when pm25 is above 55, and a severe alert
    exactly when pm25 is above 35 and at most 55.  At exactly 55 the alert is
    severe, at exactly 35 there is none. *)
Theorem air_quality_tiers (data : option WeatherData) :
  ("AirQuality_danger" ∈ List.map type (evaluateRisk data) <->
   gate_open data = true
   /\ exists p : Q, reading_pm25 data = Some p /\ (RISK_LIMITS.PM25_DANGER < p)%Q)
  /\ ("AirQuality_severe" ∈ List.map type (evaluateRisk data) <->
      gate_open data = true
      /\ exists p : Q,
           reading_pm25 data = Some p
           /\ (RISK_LIMITS.PM25_SEVERE < p)%Q /\ (p <= RISK_LIMITS.PM25_DANGER)%Q).
Proof.
  split; rewrite emits_includes; split.
  - intros (p & u & t & v & Hp & Hu & Ht & Hv & H). rewrite includes_types in H.
    split; [unfold gate_open; by rewrite Hp, Hu, Ht, Hv|].
    exists p. split; [done|]. apply num_gt_lt.
    destruct (num_gt p RISK_LIMITS.PM25_DANGER); [done|].
    destruct (num_gt p RISK_LIMITS.PM25_SEVERE), (reading_wind data);
      cbn in H; rewrite ?andb_false_r in H; discriminate H.
  - intros (Hg & p & Hp & Hlt).
    destruct (gate_open_readings data Hg) as (p' & u & t & v & Hp' & Hu & Ht & Hv).
    rewrite Hp in Hp'. injection Hp' as <-.
    exists p, u, t, v. repeat (split; [done|]).
    rewrite includes_types. apply num_gt_lt in Hlt. by rewrite Hlt.
  - intros (p & u & t & v & Hp & Hu & Ht & Hv & H). rewrite includes_types in H.
    split; [unfold gate_open; by rewrite Hp, Hu, Ht, Hv|].
    exists p. split; [done|]. rewrite <- num_gt_lt, <- num_gt_le.
    destruct (num_gt p RISK_LIMITS.PM25_DANGER), (num_gt p RISK_LIMITS.PM25_SEVERE);
      try done; destruct (reading_wind data);
      cbn in H; rewrite ?andb_false_r in H; discriminate H.
  - intros (Hg & p & Hp & Hlt & Hle).
    destruct (gate_open_readings data Hg) as (p' & u & t & v & Hp' & Hu & Ht & Hv).
    rewrite Hp in Hp'. injection Hp' as <-.
    exists p, u, t, v. repeat (split; [done|]).
    rewrite includes_types. apply num_gt_lt in Hlt. apply num_gt_le in Hle.
    by rewrite Hlt, Hle.
Qed.

(** The four single-tier metrics, with the four required readings present:
    a UV alert exactly when uv is above 6, a temperature alert exactly when
    the temperature is above 40, a visibility alert exactly when visibility
    is below 2, a wind alert exactly when a wind reading is there and above
    70.  A reading equal to its threshold raises nothing. *)
Theorem single_tier_thresholds (data : option WeatherData) :
  ("UV_danger" ∈ List.map type (evaluateRisk data) <->
   gate_open data = true
   /\ exists u : Q, reading_uv data = Some u /\ (RISK_LIMITS.UV_DANGER < u)%Q)
  /\ ("Temp_danger" ∈ List.map type (evaluateRisk data) <->
      gate_open data = true
      /\ exists t : Q, reading_temp data = Some t /\ (RISK_LIMITS.TEMP_DANGER < t)%Q)
  /\ ("Visibility_danger" ∈ List.map type (evaluateRisk data) <->
      gate_open data = true
      /\ exists v : Q,
           reading_visibility data = Some v /\ (v < RISK_LIMITS.VISIBILITY_DANGER)%Q)
  /\ ("Wind_danger" ∈ List.map type (evaluateRisk data) <->
      gate_open data = true
      /\ exists w : Q, reading_wind data = Some w /\ (RISK_LIMITS.WIND_DANGER < w)%Q).
Proof.
  split; [|split; [|split]]; rewrite emits_includes; split.
  all: try (intros (p & u & t & v & Hp & Hu & Ht & Hv & H); rewrite includes_types in H;
            split; [unfold gate_open; by rewrite Hp, Hu, Ht, Hv|]).
  all: try (intros (Hg & x & Hx & Hlt);
            destruct (gate_open_readings data Hg) as (p & u & t & v & Hp & Hu & Ht & Hv);
            exists p, u, t, v; repeat (split; [done|]); rewrite includes_types).
  - exists u. split; [done|]. apply num_gt_lt.
    destruct (num_gt u RISK_LIMITS.UV_DANGER); [done|].
    destruct (num_gt p RISK_LIMITS.PM25_DANGER), (num_gt p RISK_LIMITS.PM25_SEVERE),
      (reading_wind data); cbn in H; rewrite ?andb_false_r in H; discriminate H.
  - rewrite Hx in Hu. injection Hu as <-. apply num_gt_lt in Hlt. rewrite Hlt.
    cbn. flags.
  - exists t. split; [done|]. apply num_gt_lt.
    destruct (num_gt t RISK_LIMITS.TEMP_DANGER); [done|].
    destruct (num_gt p RISK_LIMITS.PM25_DANGER), (num_gt p RISK_LIMITS.PM25_SEVERE),
      (reading_wind data); cbn in H; rewrite ?andb_false_r in H; discriminate H.
  - rewrite Hx in Ht. injection Ht as <-. apply num_gt_lt in Hlt. rewrite Hlt.
    cbn. flags.
  - exists v. split; [done|]. apply num_lt_lt.
    destruct (num_lt v RISK_LIMITS.VISIBILITY_DANGER); [done|].
    destruct (num_gt p RISK_LIMITS.PM25_DANGER), (num_gt p RISK_LIMITS.PM25_SEVERE),
      (reading_wind data); cbn in H; rewrite ?andb_false_r in H; discriminate H.
  - rewrite Hx in Hv. injection Hv as <-. apply num_lt_lt in Hlt. rewrite Hlt.
    cbn. flags.
  - destruct (reading_wind data) as [w|].
    2: { destruct (num_gt p RISK_LIMITS.PM25_DANGER), (num_gt p RISK_LIMITS.PM25_SEVERE);
         cbn in H; rewrite ?andb_false_r in H; discriminate H. }
    exists w. split; [done|]. apply num_gt_lt.
    destruct (num_gt w RISK_LIMITS.WIND_DANGER); [done|].
    destruct (num_gt p RISK_LIMITS.PM25_DANGER), (num_gt p RISK_LIMITS.PM25_SEVERE);
      cbn in H; rewrite ?andb_false_r in H; discriminate H.
  - rewrite Hx. apply num_gt_lt in Hlt. rewrite Hlt.
    cbn. flags.
Qed.

(** Every alert the engine emits has one of the six types, the severity that
    goes with the type (severe for [AirQuality_severe], danger for the rest),
    and a message that embeds the reading that raised it: pm25 printed with
    [toFixed(1)] for the two air-quality alerts, the reading of the metric
    interpolated as it is for the others. *)
Theorem alert_carries_reading (data : option WeatherData) (a : Alert) :
  a ∈ evaluateRisk data ->
  (type a = "AirQuality_danger" /\ severity a = "danger"
   /\ ToFixed1 <$> reading_pm25 data = Some (number (message a)))
  \/ (type a = "AirQuality_severe" /\ severity a = "severe"
      /\ ToFixed1 <$> reading_pm25 data = Some (number (message a)))
  \/ (type a = "UV_danger" /\ severity a = "danger"
      /\ Interpolated <$> reading_uv data = Some (number (message a)))
  \/ (type a = "Temp_danger" /\ severity a = "danger"
      /\ Interpolated <$> reading_temp data = Some (number (message a)))
  \/ (type a = "Visibility_danger" /\ severity a = "danger"
      /\ Interpolated <$> reading_visibility data = Some (number (message a)))
  \/ (type a = "Wind_danger" /\ severity a = "danger"
      /\ Interpolated <$> reading_wind data = Some (number (message a))).
Proof.
  destruct (gate_open data) eqn:Hg.
  2: { rewrite (gate_closed_no_types data Hg). by intros H%not_elem_of_nil. }
  destruct (gate_open_readings data Hg) as (p & u & t & v & Hp & Hu & Ht & Hv).
  rewrite (evaluateRisk_readings data), Hp, Hu, Ht, Hv.
  unfold evaluateRisk, snapshot;
    cbn [chain current air_quality pm2_5 uv temp_c vis_km wind_kph].
  intros H. repeat (apply elem_of_app in H as [H|H]).
  - destruct (num_gt p RISK_LIMITS.PM25_DANGER).
    { apply list_elem_of_singleton in H as ->. by left. }
    destruct (num_gt p RISK_LIMITS.PM25_SEVERE).
    { apply list_elem_of_singleton in H as ->. right; by left. }
    by apply not_elem_of_nil in H.
  - destruct (num_gt u RISK_LIMITS.UV_DANGER); [|by apply not_elem_of_nil in H].
    apply list_elem_of_singleton in H as ->. do 2 right; by left.
  - destruct (num_gt t RISK_LIMITS.TEMP_DANGER); [|by apply not_elem_of_nil in H].
    apply list_elem_of_singleton in H as ->. do 3 right; by left.
  - destruct (num_lt v RISK_LIMITS.VISIBILITY_DANGER); [|by apply not_elem_of_nil in H].
    apply list_elem_of_singleton in H as ->. do 4 right; by left.
  - destruct (reading_wind data) as [w|]; [|by apply not_elem_of_nil in H].
    destruct (num_gt w RISK_LIMITS.WIND_DANGER); [|by apply not_elem_of_nil in H].
    apply list_elem_of_singleton in H as ->. by do 5 right.
Qed.

Lemma alert_carries_reading_witness :
  exists a : Alert,
    evaluateRisk (snapshot (Some 40%Q) (Some 1%Q) (Some 10%Q) (Some 10%Q) None) = [a]
    /\ type a = "AirQuality_severe" /\ severity a = "severe"
    /\ number (message a) = ToFixed1 40%Q.
Proof.
  eexists. split; [reflexivity|].
  destruct (alert_carries_reading
              (snapshot (Some 40%Q) (Some 1%Q) (Some 10%Q) (Some 10%Q) None) _
              (list_elem_of_here _ _))
    as [(H & _) | [(Ht & Hs & Hm) | [(H & _) | [(H & _) | [(H & _) | (H & _)]]]]];
    try discriminate H.
  split; [exact Ht | split; [exact Hs | reflexivity]].
Defined.

(** When nobody is alerted: the engine returns no alert exactly when one of
    the four required readings is missing, or pm25 is at most 35, uv at most
    6, the temperature at most 40, visibility at least 2, and the wind
    reading, if there is one, at most 70.  The warning thresholds (12, 3, 35,
    5, 40) play no part. *)
Theorem classify_quiet (data : option WeatherData) :
  evaluateRisk data = [] <->
  gate_open data = false
  \/ exists p u t v : Q,
       reading_pm25 data = Some p /\ reading_uv data = Some u
       /\ reading_temp data = Some t /\ reading_visibility data = Some v
       /\ (p <= RISK_LIMITS.PM25_SEVERE)%Q /\ (u <= RISK_LIMITS.UV_DANGER)%Q
       /\ (t <= RISK_LIMITS.TEMP_DANGER)%Q /\ (RISK_LIMITS.VISIBILITY_DANGER <= v)%Q
       /\ forall w : Q, reading_wind data = Some w -> (w <= RISK_LIMITS.WIND_DANGER)%Q.
Proof.
  destruct (gate_open data) eqn:Hg.
  2: { rewrite (gate_closed_no_types data Hg). split; [by left | done]. }
  destruct (gate_open_readings data Hg) as (p & u & t & v & Hp & Hu & Ht & Hv).
  rewrite (evaluateRisk_readings data), Hp, Hu, Ht, Hv.
  assert (Hnil : evaluateRisk (snapshot (Some p) (Some u) (Some t) (Some v) (reading_wind data)) = []
                 <-> num_gt p RISK_LIMITS.PM25_DANGER = false
                     /\ num_gt p RISK_LIMITS.PM25_SEVERE = false
                     /\ num_gt u RISK_LIMITS.UV_DANGER = false
                     /\ num_gt t RISK_LIMITS.TEMP_DANGER = false
                     /\ num_lt v RISK_LIMITS.VISIBILITY_DANGER = false
                     /\ forall w, reading_wind data = Some w ->
                                  num_gt w RISK_LIMITS.WIND_DANGER = false).
  { split.
    - intros H. apply (f_equal (List.map type)) in H.
      rewrite evaluateRisk_types in H.
      destruct (num_gt p RISK_LIMITS.PM25_DANGER); [discriminate H|].
      destruct (num_gt p RISK_LIMITS.PM25_SEVERE); [discriminate H|].
      destruct (num_gt u RISK_LIMITS.UV_DANGER); [discriminate H|].
      destruct (num_gt t RISK_LIMITS.TEMP_DANGER); [discriminate H|].
      destruct (num_lt v RISK_LIMITS.VISIBILITY_DANGER); [discriminate H|].
      repeat (split; [reflexivity|]). intros w Hw. rewrite Hw in H.
      by destruct (num_gt w RISK_LIMITS.WIND_DANGER).
    - intros (H1 & H2 & H3 & H4 & H5 & H6).
      unfold evaluateRisk, snapshot;
        cbn [chain current air_quality pm2_5 uv temp_c vis_km wind_kph].
      rewrite H1, H2, H3, H4, H5. destruct (reading_wind data) as [w|]; [|done].
      by rewrite (H6 w eq_refl). }
  rewrite Hnil. split.
  - intros (H1 & H2 & H3 & H4 & H5 & H6). right. exists p, u, t, v.
    repeat (split; [done|]).
    split; [by apply num_gt_le|]. split; [by apply num_gt_le|].
    split; [by apply num_gt_le|]. split; [by apply num_lt_le|].
    intros w Hw. by apply num_gt_le, H6.
  - intros [H|(p' & u' & t' & v' & [= <-] & [= <-] & [= <-] & [= <-]
                & H2 & H3 & H4 & H5 & H6)]; [discriminate H|].
    split.
    { apply num_gt_le. eapply Qle_trans; [exact H2 | done]. }
    split; [by apply num_gt_le|]. split; [by apply num_gt_le|].
    split; [by apply num_gt_le|]. split; [by apply num_lt_le|].
    intros w Hw. by apply num_gt_le, H6.
Qed.

(** * Further properties of the de-duplication step *)

Lemma elem_of_list_filter_bool {A : Type} (f : A -> bool) (l : list A) (x : A) :
  x ∈ List.filter f l <-> x ∈ l /\ f x = true.
Proof. by rewrite !list_elem_of_In, filter_In. Qed.

Lemma filter_none {A : Type} (f : A -> bool) (l : list A) :
  (forall x, x ∈ l -> f x = false) -> List.filter f l = [].
Proof.
  induction l as [|a l IH]; intros H; [reflexivity|].
  cbn. rewrite (H a (list_elem_of_here _ _)). apply IH.
  intros x Hx. apply H. by apply list_elem_of_further.
Qed.

(** With the types just recorded as the prior array, nothing is new. *)
Lemma reconcile_same_types (alerts : list Alert) :
  reconcile alerts (List.map type (List.filter is_severe_or_danger alerts))
  = ([], List.map type (List.filter is_severe_or_danger alerts)).
Proof.
  unfold reconcile. f_equal. apply filter_none. intros a Ha.
  apply negb_false_iff, includes_elem_of, list_elem_of_In, in_map.
  by apply list_elem_of_In.
Qed.

(** What [reconcile] does with any alerts and any prior array: an alert is
    pushed exactly when it is severe or danger and its type is not in the
    prior array; a type is recorded exactly when some severe or danger alert
    has it; so an alert of another severity is neither pushed nor recorded,
    and every recorded type was either in the prior array or is pushed now. *)
Theorem reconcile_accounting (alerts : list Alert) (prior : list string) :
  let '(toNotify, newAlertedTypes) := reconcile alerts prior in
  (forall a : Alert,
     a ∈ toNotify <->
     a ∈ alerts /\ is_severe_or_danger a = true /\ type a ∉ prior)
  /\ (forall t : string,
        t ∈ newAlertedTypes <->
        exists a : Alert, a ∈ alerts /\ is_severe_or_danger a = true /\ type a = t)
  /\ (forall t : string,
        t ∈ newAlertedTypes -> t ∈ prior \/ t ∈ List.map type toNotify).
Proof.
  unfold reconcile.
  assert (H1 : forall a : Alert,
            a ∈ List.filter (fun a => negb (includes prior (type a)))
                  (List.filter is_severe_or_danger alerts) <->
            a ∈ alerts /\ is_severe_or_danger a = true /\ type a ∉ prior).
  { intros a. rewrite !elem_of_list_filter_bool, negb_true_iff,
      <- not_true_iff_false, includes_elem_of. tauto. }
  assert (H2 : forall t : string,
            t ∈ List.map type (List.filter is_severe_or_danger alerts) <->
            exists a : Alert, a ∈ alerts /\ is_severe_or_danger a = true /\ type a = t).
  { intros t. rewrite list_elem_of_In, in_map_iff. split.
    - intros (a & Ht & Ha). apply list_elem_of_In, elem_of_list_filter_bool in Ha.
      exists a. tauto.
    - intros (a & Ha & Hs & Ht). exists a. split; [done|].
      by apply list_elem_of_In, elem_of_list_filter_bool. }
  split; [exact H1 | split; [exact H2|]].
  intros t (a & Ha & Hs & Ht)%H2.
  destruct (decide (t ∈ prior)) as [Hin|Hnin]; [by left | right].
  apply list_elem_of_In, in_map_iff. exists a. split; [done|].
  apply list_elem_of_In, H1. by subst t.
Qed.

(** Running [reconcile] again on the same alerts, with the array the first
    run recorded, pushes nothing and records the same array. *)
Theorem reconcile_settles (alerts : list Alert) (prior : list string) :
  reconcile alerts (snd (reconcile alerts prior))
  = ([], snd (reconcile alerts prior)).
Proof. apply reconcile_same_types. Qed.

(** * Further properties of the sweep *)

(** A property of the pair (configuration before, configuration after) that
    holds across one turn of the body holds across the whole loop. *)
Lemma for_entries_rel (R : Config -> Config -> Prop)
    (body : string -> ref -> Config -> Config)
    (entries : list (string * ref)) (c : Config) :
  (forall c, R c c) ->
  (forall c1 c2 c3, R c1 c2 -> R c2 c3 -> R c1 c3) ->
  (forall k r c, (k, r) ∈ entries -> R c (body k r c)) ->
  R c (for_entries body entries c).
Proof.
  intros Hrefl Htrans Hbody. revert c.
  induction entries as [|[k r] entries IH]; intros c; [apply Hrefl|].
  cbn [for_entries]. eapply Htrans; [|apply IH].
  - destruct (Map_get k (userStore c.1)) as [r'|]; [|apply Hrefl].
    destruct (Nat.eqb r' r); [|apply Hrefl].
    apply Hbody, list_elem_of_here.
  - intros k' r' c' Hin. by apply Hbody, list_elem_of_further.
Qed.

Lemma same_but_alerts_refl (u : User) : same_but_alerts u u.
Proof. by repeat split. Qed.

Lemma same_but_alerts_trans (u1 u2 u3 : User) :
  same_but_alerts u1 u2 -> same_but_alerts u2 u3 -> same_but_alerts u1 u3.
Proof. intros (? & ? & ? & ?) (? & ? & ? & ?). repeat split; congruence. Qed.

Lemma sweep_shape_refl (keys : list string) (c : Config) : sweep_shape keys c c.
Proof.
  split; [done | split; [done | split]].
  - intros r u' Hu. exists u'. split; [done | apply same_but_alerts_refl].
  - exists []. split; [by rewrite app_nil_r | constructor].
Qed.

Lemma sweep_shape_trans (keys : list string) (c1 c2 c3 : Config) :
  sweep_shape keys c1 c2 -> sweep_shape keys c2 c3 -> sweep_shape keys c1 c3.
Proof.
  intros (Hs1 & Hl1 & Hh1 & e1 & Ht1 & He1) (Hs2 & Hl2 & Hh2 & e2 & Ht2 & He2).
  split; [by etrans | split; [congruence | split]].
  - intros r u3 Hu3. destruct (Hh2 r u3 Hu3) as (u2 & Hu2 & H23).
    destruct (Hh1 r u2 Hu2) as (u1 & Hu1 & H12).
    exists u1. split; [done | by eapply same_but_alerts_trans].
  - exists (e1 ++ e2). split; [by rewrite Ht2, Ht1, app_assoc|].
    by apply Forall_app.
Qed.

Lemma alter_same_but_alerts (types : list string) (r r' : ref) (h : list User)
    (u' : User) :
  alter (set_lastAlertedTypes types) r h !! r' = Some u' ->
  exists u : User, h !! r' = Some u /\ same_but_alerts u u'.
Proof.
  destruct (decide (r = r')) as [<-|Hne].
  - rewrite list_lookup_alter_eq. destruct (h !! r) as [u|]; [|done].
    intros [= <-]. exists u. by repeat split.
  - rewrite list_lookup_alter_ne by done. intros Hu. exists u'.
    split; [done | apply same_but_alerts_refl].
Qed.

Lemma posts_for_user (k : string) (posts : list Event) (alerts : list Alert) :
  Forall2 (is_post k) posts alerts -> Forall (fun e => event_user e = k) posts.
Proof.
  induction 1 as [|e a posts alerts (t & rp & ->) _ IH]; constructor; done.
Qed.

Lemma check_user_shape (w : World) (keys : list string) (k : string) (r : ref)
    (c : Config) :
  k ∈ keys -> sweep_shape keys c (check_user w k r c).
Proof.
  intros Hk. destruct c as [st tr].
  destruct (heap st !! r) as [u|] eqn:Hu.
  2: { unfold check_user. rewrite Hu. apply sweep_shape_refl. }
  pose proof (check_user_spec w k r st tr u Hu) as Hspec.
  destruct (truthy (appOpen u)); [rewrite Hspec; apply sweep_shape_refl|].
  destruct Hspec as (reply & posts & _ & Htr & Hst).
  unfold sweep_shape. rewrite Htr. cbn [fst snd].
  destruct reply as [|data].
  - destruct Hst as [-> ->]. split; [done | split; [done | split]].
    + intros r' u' Hu'. exists u'. split; [done | apply same_but_alerts_refl].
    + eexists. split; [reflexivity|]. by repeat constructor.
  - destruct Hst as [Hposts ->]. cbn [userStore heap]. split; [|split; [|split]].
    + destruct (existsb reply_invalid posts); [apply Map_delete_sublist | done].
    + apply length_alter.
    + intros r' u'. apply alter_same_but_alerts.
    + eexists. split; [reflexivity|]. constructor; [done|].
      eapply Forall_impl; [by eapply posts_for_user|]. by intros e ->.
Qed.

Lemma loop_shape (body : string -> ref -> Config -> Config) (c : Config) :
  (forall keys k r c, k ∈ keys -> sweep_shape keys c (body k r c)) ->
  sweep_shape (userStore (fst c)).*1 c
    (if Nat.eqb (Map_size (userStore (fst c))) 0 then c
     else for_entries body (userStore (fst c)) c).
Proof.
  intros Hbody. destruct (Nat.eqb _ 0); [apply sweep_shape_refl|].
  generalize (userStore c.1). intros entries.
  apply for_entries_rel.
  - apply sweep_shape_refl.
  - apply sweep_shape_trans.
  - intros k r c' Hin. apply Hbody.
    apply list_elem_of_fmap. by exists (k, r).
Qed.

Lemma checkAllUsers_shape (w : World) (c : Config) :
  sweep_shape (userStore (fst c)).*1 c (checkAllUsers w c).
Proof. apply loop_shape. intros keys k r c'. apply check_user_shape. Qed.

(** A sweep only forgets: afterwards the store is a subsequence of the store
    before (no entry added, none reordered, so the count cannot grow), every
    object is where it was with its token, location and [appOpen] unchanged,
    and every call was made on behalf of a token registered when the sweep
    started.  On an empty store it does nothing at all. *)
Theorem sweep_only_forgets (w : World) (st : State) (tr : list Event) :
  userStore (fst (checkAllUsers w (st, tr))) `sublist_of` userStore st
  /\ Map_size (userStore (fst (checkAllUsers w (st, tr)))) <= Map_size (userStore st)
  /\ (forall (r : ref) (u' : User),
        heap (fst (checkAllUsers w (st, tr))) !! r = Some u' ->
        exists u : User, heap st !! r = Some u /\ same_but_alerts u u')
  /\ (exists evs : list Event,
        snd (checkAllUsers w (st, tr)) = tr ++ evs
        /\ Forall (fun e => is_Some (Map_get (event_user e) (userStore st))) evs)
  /\ (userStore st = [] -> checkAllUsers w (st, tr) = (st, tr)).
Proof.
  destruct (checkAllUsers_shape w (st, tr)) as (Hsub & _ & Hheap & evs & Htr & Hev).
  cbn [fst snd] in *.
  split; [exact Hsub | split; [by apply sublist_length | split; [exact Hheap | split]]].
  - exists evs. split; [exact Htr|]. eapply Forall_impl; [exact Hev|].
    intros e He. cbn in He.
    destruct (Map_get (event_user e) (userStore st)) eqn:Hg; [done|].
    by apply Map_get_None_keys in Hg.
  - intros Hempty. unfold checkAllUsers. cbn [fst]. by rewrite Hempty.
Qed.

Lemma wf_store_lookup (st : State) (k : string) (r : ref) :
  wf_store st -> Map_get k (userStore st) = Some r ->
  exists u : User, heap st !! r = Some u.
Proof.
  intros (_ & _ & Hb) Hget. apply Map_get_Some_elem_of in Hget.
  rewrite Forall_forall in Hb. specialize (Hb _ Hget). cbn in Hb.
  by apply lookup_lt_is_Some_2.
Qed.

Lemma sublist_Map_get_None (k : string) (m1 m2 : list (string * ref)) :
  m1 `sublist_of` m2 -> Map_get k m2 = None -> Map_get k m1 = None.
Proof.
  intros Hsub. rewrite !Map_get_None_keys. intros Hn Hin. apply Hn.
  eapply elem_of_sublist; [exact Hin | by apply fmap_sublist].
Qed.

Lemma omap_pushed_posts (k : string) (posts : list Event) (alerts : list Alert) :
  Forall2 (is_post k) posts alerts -> omap pushed_alert posts = alerts.
Proof.
  induction 1 as [|e a posts alerts (t & rp & ->) _ IH]; [reflexivity|].
  cbn. by rewrite IH.
Qed.

Lemma weather_gets_posts (k : string) (posts : list Event) (alerts : list Alert) :
  Forall2 (is_post k) posts alerts -> List.filter is_weather_get posts = [].
Proof.
  induction 1 as [|e a posts alerts (t & rp & ->) _ IH]; [reflexivity | exact IH].
Qed.

(** The sweep seen from a device whose weather request returned [data]. *)
Lemma sweep_returned (w : World) (st : State) (tr : list Event) (k : string)
    (r : ref) (u : User) (evs : list Event) (data : option WeatherData)
    (lat lon : JsVal) :
  wf_store st ->
  Map_get k (userStore st) = Some r ->
  heap st !! r = Some u ->
  snd (checkAllUsers w (st, tr)) = tr ++ evs ->
  WeatherGet k lat lon (GetReturns data) ∈ evs ->
  truthy (appOpen u) = false
  /\ exists posts : list Event,
       user_events k evs
       = WeatherGet k (latitude u) (longitude u) (GetReturns data) :: posts
       /\ Forall2 (is_post k) posts
            (fst (reconcile (evaluateRisk data) (lastAlertedTypes u)))
       /\ Map_get k (userStore (fst (checkAllUsers w (st, tr))))
          = (if existsb reply_invalid posts then None else Some r)
       /\ heap (fst (checkAllUsers w (st, tr))) !! r
          = Some (set_lastAlertedTypes
                    (snd (reconcile (evaluateRisk data) (lastAlertedTypes u))) u).
Proof.
  intros Hwf Hr Hu Htr Hin.
  destruct (sweep_user_outcome w st tr k r u Hwf Hr Hu) as (evs' & Htr' & Hout).
  rewrite Htr in Htr'. apply app_inv_head in Htr'. subst evs'.
  pose proof (user_events_elem_of k _ evs Hin eq_refl) as Hue.
  cbn zeta in Hout. destruct (truthy (appOpen u)).
  { destruct Hout as (Hev & _). rewrite Hev in Hue. by apply not_elem_of_nil in Hue. }
  split; [reflexivity|].
  destruct Hout as (reply & posts & Hev & Hout). rewrite Hev in Hue.
  assert (Hreply : reply = GetReturns data).
  { apply elem_of_cons in Hue as [[= _ _ <-]|Hue]; [reflexivity|].
    destruct reply as [|data']; [destruct Hout as (-> & _); by apply not_elem_of_nil in Hue|].
    destruct Hout as (Hposts & _). exfalso. clear -Hposts Hue.
    induction Hposts as [|p a posts alerts (t & rp & ->) _ IH].
    - by apply not_elem_of_nil in Hue.
    - apply elem_of_cons in Hue as [Heq|Hue]; [discriminate Heq | by apply IH]. }
  subst reply. exists posts. by split.
Qed.

(** A sweep removes exactly the tokens the push service disowned during it:
    afterwards a token is in the store exactly when it was there before and
    no push made for it in this sweep came back with status error and
    DeviceNotRegistered or InvalidCredentials. *)
Theorem sweep_removes_exactly_disowned (w : World) (st : State) (tr : list Event)
    (evs : list Event) :
  wf_store st ->
  snd (checkAllUsers w (st, tr)) = tr ++ evs ->
  forall k : string,
    Map_get k (userStore (fst (checkAllUsers w (st, tr))))
    = if existsb reply_invalid (user_events k evs) then None
      else Map_get k (userStore st).
Proof.
  intros Hwf Htr k.
  destruct (Map_get k (userStore st)) as [r|] eqn:Hr.
  2: { destruct (checkAllUsers_shape w (st, tr)) as (Hsub & _).
       rewrite (sublist_Map_get_None k _ _ Hsub Hr). by destruct (existsb _ _). }
  destruct (wf_store_lookup st k r Hwf Hr) as (u & Hu).
  destruct (sweep_user_outcome w st tr k r u Hwf Hr Hu) as (evs' & Htr' & Hout).
  rewrite Htr in Htr'. apply app_inv_head in Htr'. subst evs'.
  cbn zeta in Hout. destruct (truthy (appOpen u)).
  { destruct Hout as (-> & -> & _). reflexivity. }
  destruct Hout as (reply & posts & -> & Hout). cbn [existsb reply_invalid orb].
  destruct reply as [|data].
  - by destruct Hout as (-> & -> & _).
  - by destruct Hout as (_ & -> & _).
Qed.

Lemma sweep_removes_exactly_disowned_witness :
  Map_get demo_token (userStore demo_disowned) = None
  /\ Map_get demo_token (userStore demo_swept) = Some 0.
Proof.
  split.
  - exact (sweep_removes_exactly_disowned disowning_world demo_registered [] _
             (wf_store_register _ _ wf_store_empty) eq_refl demo_token).
  - exact (sweep_removes_exactly_disowned hazy_world demo_registered [] _
             (wf_store_register _ _ wf_store_empty) eq_refl demo_token).
Defined.

Lemma weather_requests_posts (k : string) (posts : list Event) (alerts : list Alert) :
  Forall2 (is_post k) posts alerts -> List.filter is_weather_request posts = [].
Proof.
  induction 1 as [|e a posts alerts (t & rp & ->) _ IH]; [reflexivity | exact IH].
Qed.

(** The sweep seen from a device whose app is not open and one of whose
    coordinates does not print: its turn throws while the query is built,
    nothing is pushed and nothing changes for it. *)
Lemma sweep_unprintable (w : World) (st : State) (tr : list Event) (k : string)
    (r : ref) (u : User) (evs : list Event) :
  wf_store st ->
  Map_get k (userStore st) = Some r ->
  heap st !! r = Some u ->
  truthy (appOpen u) = false ->
  prints (latitude u) && prints (longitude u) = false ->
  snd (checkAllUsers w (st, tr)) = tr ++ evs ->
  user_events k evs = [WeatherGet k (latitude u) (longitude u) GetThrows]
  /\ Map_get k (userStore (fst (checkAllUsers w (st, tr)))) = Some r
  /\ heap (fst (checkAllUsers w (st, tr))) !! r = Some u.
Proof.
  intros Hwf Hr Hu Hopen Hpr Htr.
  destruct (sweep_locality w (st, tr) k r Hwf Hr) as ([st1 tr1] & Hpre & Hpost).
  destruct Hpre as (Hm1 & Hh1 & e1 & Ht1 & He1). cbn [fst snd] in Hm1, Hh1, Ht1.
  rewrite Hr in Hm1. rewrite Hu in Hh1.
  destruct Hpost as (Hm3 & Hh3 & e3 & Ht3 & He3).
  pose proof (check_user_spec w k r st1 tr1 u Hh1) as Hspec.
  rewrite Hopen, Hpr in Hspec.
  destruct Hspec as (reply & posts & -> & Htr2 & -> & Hst2).
  rewrite Hst2 in Hm3, Hh3. rewrite Htr2, Ht1, Htr in Ht3.
  rewrite <- !app_assoc in Ht3. apply app_inv_head in Ht3. subst evs.
  rewrite !user_events_app, He1, He3. cbn. rewrite String.eqb_refl.
  by rewrite Hm3, Hh3.
Qed.

(** Per sweep, the weather service gets exactly one request for a registered
    device whose app is not open and whose coordinates print, whatever the
    replies, and none for any other registered device.  A device stored with
    a coordinate that does not print is passed over in silence: nothing is
    pushed for it and its record stays as it is. *)
Theorem one_weather_request_per_device (w : World) (st : State) (tr : list Event)
    (k : string) (u : User) (evs : list Event) :
  wf_store st ->
  get k st = Some u ->
  snd (checkAllUsers w (st, tr)) = tr ++ evs ->
  length (List.filter is_weather_request (user_events k evs))
  = (if truthy (appOpen u) || negb (prints (latitude u) && prints (longitude u))
     then 0 else 1)
  /\ (prints (latitude u) && prints (longitude u) = false ->
      omap pushed_alert (user_events k evs) = []
      /\ get k (fst (checkAllUsers w (st, tr))) = Some u).
Proof.
  intros Hwf Hget Htr.
  destruct (get_inv k st u Hget) as (r & Hr & Hu).
  destruct (sweep_user_outcome w st tr k r u Hwf Hr Hu) as (evs' & Htr' & Hout).
  rewrite Htr in Htr'. apply app_inv_head in Htr'. subst evs'.
  cbn zeta in Hout. destruct (truthy (appOpen u)) eqn:Hopen.
  { destruct Hout as (-> & Hm & Hh). split; [reflexivity|].
    intros _. split; [reflexivity|]. unfold get. by rewrite Hm. }
  destruct (prints (latitude u) && prints (longitude u)) eqn:Hpr.
  - split; [|done]. destruct Hout as (reply & posts & -> & Hout).
    cbn. rewrite Hpr. cbn. destruct reply as [|data].
    + by destruct Hout as (-> & _).
    + destruct Hout as (Hposts & _). by rewrite (weather_requests_posts _ _ _ Hposts).
  - destruct (sweep_unprintable w st tr k r u evs Hwf Hr Hu Hopen Hpr Htr)
      as (-> & Hm & Hh).
    split; [cbn; by rewrite Hpr|]. intros _. split; [reflexivity|].
    unfold get. by rewrite Hm.
Qed.

Lemma one_weather_request_per_device_witness :
  length (List.filter is_weather_request
            (user_events demo_token (snd (checkAllUsers hazy_world (demo_swept, [])))))
  = 1
  /\ length (List.filter is_weather_request
               (user_events demo_token (snd (checkAllUsers hazy_world (demo_open, [])))))
     = 0
  /\ length (List.filter is_weather_request
               (user_events demo_token
                  (snd (checkAllUsers hazy_world (demo_unprintable, [])))))
     = 0
  /\ get demo_token (fst (checkAllUsers hazy_world (demo_unprintable, [])))
     = get demo_token demo_unprintable.
Proof.
  assert (Hwf : wf_store demo_swept).
  { apply (wf_store_checkAllUsers hazy_world (demo_registered, [])).
    apply wf_store_register, wf_store_empty. }
  split; [|split; [|split]].
  - exact (proj1 (one_weather_request_per_device hazy_world demo_swept [] demo_token
                    {| fcmToken := demo_token;
                       latitude := JNum (285 # 10);
                       longitude := JNum (772 # 10);
                       appOpen := JBool false;
                       lastAlertedTypes := ["AirQuality_danger"] |} _
                    Hwf eq_refl eq_refl)).
  - exact (proj1 (one_weather_request_per_device hazy_world demo_open [] demo_token
                    {| fcmToken := demo_token;
                       latitude := JNum (285 # 10);
                       longitude := JNum (772 # 10);
                       appOpen := JBool true;
                       lastAlertedTypes := [] |} _
                    (wf_store_update_location _ _ wf_store_empty) eq_refl eq_refl)).
  - exact (proj1 (one_weather_request_per_device hazy_world demo_unprintable []
                    demo_token
                    {| fcmToken := demo_token;
                       latitude := JObj false;
                       longitude := JNum (772 # 10);
                       appOpen := JBool false;
                       lastAlertedTypes := ["AirQuality_danger"] |} _
                    (wf_store_update_location _ _ Hwf) eq_refl eq_refl)).
  - exact (proj2 (proj2 (one_weather_request_per_device hazy_world demo_unprintable []
                    demo_token
                    {| fcmToken := demo_token;
                       latitude := JObj false;
                       longitude := JNum (772 # 10);
                       appOpen := JBool false;
                       lastAlertedTypes := ["AirQuality_danger"] |} _
                    (wf_store_update_location _ _ Hwf) eq_refl eq_refl) eq_refl)).
Defined.

(** When the weather request of a device returns, the pushes made for it in
    that sweep carry exactly the alerts that are new for it, each once and in
    the order of the engine, whatever the push service answers: a token
    disowned by one push still gets the remaining ones. *)
Theorem sweep_pushes_new_alerts_once (w : World) (st : State) (tr : list Event)
    (k : string) (r : ref) (u : User) (evs : list Event)
    (data : option WeatherData) (lat lon : JsVal) :
  wf_store st ->
  Map_get k (userStore st) = Some r ->
  heap st !! r = Some u ->
  snd (checkAllUsers w (st, tr)) = tr ++ evs ->
  WeatherGet k lat lon (GetReturns data) ∈ evs ->
  omap pushed_alert (user_events k evs)
  = fst (reconcile (evaluateRisk data) (lastAlertedTypes u))
  /\ lat = latitude u /\ lon = longitude u.
Proof.
  intros Hwf Hr Hu Htr Hin.
  destruct (sweep_returned w st tr k r u evs data lat lon Hwf Hr Hu Htr Hin)
    as (_ & posts & Hev & Hposts & _).
  split.
  - rewrite Hev. cbn. by eapply omap_pushed_posts.
  - pose proof (user_events_elem_of k _ evs Hin eq_refl) as Hue. rewrite Hev in Hue.
    apply elem_of_cons in Hue as [[= -> ->]|Hue]; [done|].
    exfalso. clear -Hposts Hue.
    induction Hposts as [|p a posts alerts (t & rp & ->) _ IH].
    + by apply not_elem_of_nil in Hue.
    + apply elem_of_cons in Hue as [Heq|Hue]; [discriminate Heq | by apply IH].
Qed.

Lemma sweep_pushes_new_alerts_once_witness :
  List.map type
    (omap pushed_alert
       (user_events demo_token
          (snd (checkAllUsers stormy_disowning_world (demo_swept, [])))))
  = ["UV_danger"; "Temp_danger"; "Visibility_danger"; "Wind_danger"].
Proof.
  pose proof (sweep_pushes_new_alerts_once stormy_disowning_world demo_swept []
                demo_token 0
                {| fcmToken := demo_token;
                   latitude := JNum (285 # 10);
                   longitude := JNum (772 # 10);
                   appOpen := JBool false;
                   lastAlertedTypes := ["AirQuality_danger"] |}
                _ _ (JNum (285 # 10)) (JNum (772 # 10))
                (wf_store_checkAllUsers hazy_world (demo_registered, [])
                   (wf_store_register _ _ wf_store_empty))
                eq_refl eq_refl eq_refl (list_elem_of_here _ _)) as [H _].
  rewrite H. reflexivity.
Defined.

(** Two sweeps in a row that get the same weather response for a device: the
    second one pushes nothing for it and leaves its object as the first one
    left it. *)
Theorem second_sweep_is_quiet (w1 w2 : World) (st : State) (tr : list Event)
    (k : string) (r : ref) (u : User) (evs1 evs2 : list Event)
    (data : option WeatherData) (lat1 lon1 lat2 lon2 : JsVal) :
  wf_store st ->
  Map_get k (userStore st) = Some r ->
  heap st !! r = Some u ->
  snd (checkAllUsers w1 (st, tr)) = tr ++ evs1 ->
  snd (checkAllUsers w2 (checkAllUsers w1 (st, tr))) = (tr ++ evs1) ++ evs2 ->
  WeatherGet k lat1 lon1 (GetReturns data) ∈ evs1 ->
  WeatherGet k lat2 lon2 (GetReturns data) ∈ evs2 ->
  omap pushed_alert (user_events k evs2) = []
  /\ heap (fst (checkAllUsers w2 (checkAllUsers w1 (st, tr)))) !! r
     = heap (fst (checkAllUsers w1 (st, tr))) !! r.
Proof.
  intros Hwf Hr Hu Htr1 Htr2 Hin1 Hin2.
  destruct (sweep_returned w1 st tr k r u evs1 data lat1 lon1 Hwf Hr Hu Htr1 Hin1)
    as (_ & posts1 & _ & _ & Hm1 & Hh1).
  pose proof (wf_store_checkAllUsers w1 (st, tr) Hwf) as Hwf1.
  destruct (checkAllUsers w1 (st, tr)) as [st1 tr1] eqn:Hc1.
  cbn [fst snd] in *. subst tr1.
  assert (Hr1 : Map_get k (userStore st1) = Some r).
  { destruct (existsb reply_invalid posts1); [|exact Hm1]. exfalso.
    destruct (checkAllUsers_shape w2 (st1, tr ++ evs1)) as (_ & _ & _ & evs & Ht & Hev).
    cbn [fst snd] in Ht, Hev. rewrite Htr2 in Ht. apply app_inv_head in Ht. subst evs.
    rewrite Forall_forall in Hev. specialize (Hev _ Hin2). cbn in Hev.
    by apply Map_get_None_keys in Hm1. }
  destruct (sweep_returned w2 st1 (tr ++ evs1) k r _ evs2 data lat2 lon2
              Hwf1 Hr1 Hh1 Htr2 Hin2) as (_ & posts2 & Hev2 & Hposts2 & _ & Hh2).
  cbn [lastAlertedTypes set_lastAlertedTypes] in Hposts2, Hh2.
  unfold reconcile at 2 in Hposts2. cbn [snd] in Hposts2.
  rewrite reconcile_same_types in Hposts2. cbn [fst] in Hposts2.
  apply Forall2_nil_inv_r in Hposts2. subst posts2.
  split; [by rewrite Hev2|].
  rewrite Hh2. unfold reconcile at 2. cbn [snd].
  by rewrite reconcile_same_types.
Qed.

Lemma second_sweep_is_quiet_witness :
  omap pushed_alert
    (user_events demo_token (snd (checkAllUsers hazy_world (demo_swept, []))))
  = []
  /\ heap (fst (checkAllUsers hazy_world (demo_swept, []))) !! 0
     = heap demo_swept !! 0.
Proof.
  pose proof (second_sweep_is_quiet hazy_world hazy_world demo_registered []
                demo_token 0 _ _ _ _ _ _ _ _
                (wf_store_register _ _ wf_store_empty)
                eq_refl eq_refl eq_refl eq_refl
                (list_elem_of_here _ _) (list_elem_of_here _ _)) as [H1 H2].
  split.
  - etrans; [|exact H1]. reflexivity.
  - etrans; [|exact H2]. reflexivity.
Defined.

Lemma reconcile_no_prior (data : option WeatherData) :
  reconcile (evaluateRisk data) []
  = (evaluateRisk data, List.map type (evaluateRisk data)).
Proof.
  rewrite (reconcile_active _ _ (evaluateRisk_severities data)). f_equal.
  induction (evaluateRisk data) as [|a l IH]; [reflexivity|].
  rewrite filter_cons_True; [by rewrite IH | apply not_elem_of_nil].
Qed.

(** Registration followed by a sweep: when the weather request for the newly
    registered token returns, every alert the engine raises for that response
    is pushed to it, and the request was made for the coordinates of the
    registration. *)
Theorem first_sweep_pushes_every_alert (w : World) (req : Body) (st : State)
    (tr : list Event) (tok : string) (evs : list Event)
    (data : option WeatherData) (lat lon : JsVal) :
  wf_store st ->
  req_fcmToken req = JStr tok ->
  String.prefix "ExponentPushToken[" tok = true ->
  truthy (req_latitude req) = true ->
  truthy (req_longitude req) = true ->
  snd (checkAllUsers w (snd (register req st), tr)) = tr ++ evs ->
  WeatherGet tok lat lon (GetReturns data) ∈ evs ->
  omap pushed_alert (user_events tok evs) = evaluateRisk data
  /\ lat = req_latitude req /\ lon = req_longitude req.
Proof.
  intros Hwf Htok Hpre Hlat Hlon Htr Hin.
  assert (Hne : tok <> "") by (eapply prefix_nonempty; [|exact Hpre]; done).
  destruct (register_stores_fresh req st tok Htok Hpre Hlat Hlon Hne) as [_ Hget].
  destruct (get_inv _ _ _ Hget) as (r & Hr & Hu).
  destruct (sweep_returned w _ tr tok r _ evs data lat lon
              (wf_store_register req st Hwf) Hr Hu Htr Hin)
    as (_ & posts & Hev & Hposts & _).
  cbn [lastAlertedTypes latitude longitude] in Hev, Hposts.
  rewrite reconcile_no_prior in Hposts. cbn [fst] in Hposts.
  split.
  - rewrite Hev. cbn. by eapply omap_pushed_posts.
  - pose proof (user_events_elem_of tok _ evs Hin eq_refl) as Hue. rewrite Hev in Hue.
    apply elem_of_cons in Hue as [[= -> ->]|Hue]; [done|].
    exfalso. clear -Hposts Hue.
    induction Hposts as [|p a posts alerts (t & rp & ->) _ IH].
    + by apply not_elem_of_nil in Hue.
    + apply elem_of_cons in Hue as [Heq|Hue]; [discriminate Heq | by apply IH].
Qed.

Lemma first_sweep_pushes_every_alert_witness :
  List.map type
    (omap pushed_alert
       (user_events demo_token
          (snd (checkAllUsers stormy_disowning_world
                  (snd (register demo_request demo_swept), [])))))
  = ["AirQuality_danger"; "UV_danger"; "Temp_danger"; "Visibility_danger";
     "Wind_danger"].
Proof.
  pose proof (first_sweep_pushes_every_alert stormy_disowning_world demo_request
                demo_swept [] demo_token _ _ (JNum (285 # 10)) (JNum (772 # 10))
                (wf_store_checkAllUsers hazy_world (demo_registered, [])
                   (wf_store_register _ _ wf_store_empty))
                eq_refl eq_refl eq_refl eq_refl eq_refl (list_elem_of_here _ _))
    as [H _].
  rewrite H. reflexivity.
Defined.

(** * Further properties of the routes *)

Lemma wf_store_get_ne (st : State) (k k' : string) (r r' : ref) :
  wf_store st -> k <> k' ->
  Map_get k (userStore st) = Some r -> Map_get k' (userStore st) = Some r' ->
  r <> r'.
Proof.
  intros (_ & Hrefs & _) Hne Hk Hk' <-.
  apply Map_get_Some_elem_of in Hk, Hk'.
  apply list_elem_of_lookup in Hk as (i & Hi). apply list_elem_of_lookup in Hk' as (j & Hj).
  assert (i = j) as <-.
  { eapply NoDup_lookup; [exact Hrefs | |].
    - rewrite list_lookup_fmap, Hi. reflexivity.
    - rewrite list_lookup_fmap, Hj. reflexivity. }
  rewrite Hi in Hj. by injection Hj.
Qed.

(** Whatever a request for one token does, every other registered device is
    found afterwards with the record it had: [/register] and
    [/update-location] touch the entry of their own token only. *)
Theorem routes_leave_other_devices (req : Body) (st : State) (tok k : string) :
  wf_store st ->
  req_fcmToken req = JStr tok ->
  k <> tok ->
  get k (snd (register req st)) = get k st
  /\ get k (snd (update_location req st)) = get k st.
Proof.
  intros Hwf Htok Hne.
  assert (Hnew : forall u : User,
            get k {| userStore := Map_set tok (alloc u (heap st)).1 (userStore st);
                     heap := (alloc u (heap st)).2 |} = get k st).
  { intros u. unfold get, alloc; cbn [userStore heap fst snd].
    rewrite Map_get_set_ne by done.
    destruct (Map_get k (userStore st)) as [r|] eqn:Hr; [|done].
    destruct (wf_store_lookup st k r Hwf Hr) as (u' & Hu').
    rewrite Hu'. by apply lookup_app_l_Some. }
  split.
  - unfold register. destruct (missing_fields req); [done|]. rewrite Htok.
    destruct (negb (String.prefix "ExponentPushToken[" tok)); [done|].
    destruct (prints (req_latitude req) && prints (req_longitude req)); apply Hnew.
  - unfold update_location. destruct (missing_fields req); [done|]. rewrite Htok.
    destruct (Map_get tok (userStore st)) as [r|] eqn:Hr.
    + unfold get; cbn [snd userStore heap].
      destruct (Map_get k (userStore st)) as [r'|] eqn:Hr'; [|done].
      apply list_lookup_alter_ne.
      eapply wf_store_get_ne; [exact Hwf | | exact Hr | exact Hr']. congruence.
    + destruct (negb (String.prefix "ExponentPushToken[" tok)); [done|]. apply Hnew.
Qed.

Lemma routes_leave_other_devices_witness :
  get demo_token (snd (register other_request demo_swept)) = get demo_token demo_swept
  /\ get demo_token (snd (update_location other_request two_devices))
     = get demo_token two_devices.
Proof.
  split.
  - refine (proj1 (routes_leave_other_devices other_request demo_swept other_token
                     demo_token _ eq_refl _)); [|discriminate].
    apply (wf_store_checkAllUsers hazy_world (demo_registered, [])).
    apply wf_store_register, wf_store_empty.
  - refine (proj2 (routes_leave_other_devices other_request two_devices other_token
                     demo_token _ eq_refl _)); [|discriminate].
    apply wf_store_update_location.
    apply (wf_store_checkAllUsers hazy_world (demo_registered, [])).
    apply wf_store_register, wf_store_empty.
Defined.

(** What a request that is not answered with success leaves behind.
    [/update-location] changes nothing then.  [/register] changes nothing
    when it answers 400 or throws at [startsWith]; but when the token is
    accepted and a coordinate does not print, it throws at its log line,
    after the set: the answer is the 500 of the framework and the device is
    stored. *)
Theorem rejected_requests_and_the_store (req : Body) (st : State) :
  match fst (update_location req st) with
  | Success _ => True
  | _ => snd (update_location req st) = st
  end
  /\ match fst (register req st) with
     | Success _ => True
     | Status400 _ | Status404 _ => snd (register req st) = st
     | Throws =>
         match req_fcmToken req with
         | JStr tok =>
             prints (req_latitude req) && prints (req_longitude req) = false
             /\ get tok (snd (register req st))
                = Some {| fcmToken := tok;
                          latitude := req_latitude req;
                          longitude := req_longitude req;
                          appOpen := JBool false;
                          lastAlertedTypes := [] |}
         | _ => snd (register req st) = st
         end
     end.
Proof.
  unfold register, update_location.
  destruct (missing_fields req); [done|].
  destruct (req_fcmToken req) as [| | | |tok|]; try done.
  split.
  - destruct (Map_get tok (userStore st)),
      (negb (String.prefix "ExponentPushToken[" tok)); done.
  - destruct (negb (String.prefix "ExponentPushToken[" tok)); [done|].
    destruct (prints (req_latitude req) && prints (req_longitude req)); [done|].
    split; [reflexivity|]. unfold get; cbn. rewrite Map_get_set_eq.
    by rewrite lookup_app_r, Nat.sub_diag.
Qed.

(** [/register] with latitude [{"toString": 1}]: the answer is the throw of
    the log line, and the device is in the store. *)
Example register_unprintable_coordinate :
  fst (register {| req_fcmToken := JStr other_token; req_latitude := JObj false;
                   req_longitude := JNum 1; req_appOpen := JUndefined |} demo_swept)
  = Throws
  /\ latitude
       <$> get other_token
             (snd (register {| req_fcmToken := JStr other_token;
                               req_latitude := JObj false;
                               req_longitude := JNum 1;
                               req_appOpen := JUndefined |} demo_swept))
     = Some (JObj false).
Proof. split; reflexivity. Qed.

(** A token that passes the presence check but is not a string (a number,
    [true], an array, an object) makes both routes throw where they call
    [startsWith]: the answer is the 500 of the framework, not a 400, and the
    store is unchanged. *)
Theorem non_string_token_throws (req : Body) (st : State) :
  truthy (req_fcmToken req) = true ->
  (forall s : string, req_fcmToken req <> JStr s) ->
  truthy (req_latitude req) = true ->
  truthy (req_longitude req) = true ->
  register req st = (Throws, st) /\ update_location req st = (Throws, st).
Proof.
  intros Htok Hns Hlat Hlon. unfold register, update_location.
  assert (Hm : missing_fields req = false).
  { by apply missing_fields_false. }
  rewrite Hm. destruct (req_fcmToken req) as [| | | |tok|]; try done.
  by destruct (Hns tok).
Qed.

Lemma non_string_token_throws_witness :
  register {| req_fcmToken := JNum 5; req_latitude := JNum 1;
              req_longitude := JNum 1; req_appOpen := JUndefined |} demo_swept
  = (Throws, demo_swept)
  /\ update_location {| req_fcmToken := JNum 5; req_latitude := JNum 1;
                        req_longitude := JNum 1; req_appOpen := JUndefined |} demo_swept
     = (Throws, demo_swept).
Proof.
  apply non_string_token_throws; try reflexivity. intros s. discriminate.
Defined.

Lemma Map_set_size {V : Type} (k : string) (v : V) (m : list (string * V)) :
  Map_size (Map_set k v m)
  = match Map_get k m with
    | Some _ => Map_size m
    | None => S (Map_size m)
    end.
Proof.
  unfold Map_size. destruct (Map_get k m) as [v0|] eqn:Hg.
  - destruct (Map_set_present k v m v0 Hg) as [Hkeys _].
    apply (f_equal length) in Hkeys. by rewrite !length_fmap in Hkeys.
  - rewrite (Map_set_absent k v m Hg), length_app. cbn. lia.
Qed.

(** The number of registered devices after an accepted request: one more
    when the token was not registered, the same when it was.  Registering
    again, or updating, never inflates the count. *)
Theorem accepted_request_size (req : Body) (st : State) (tok : string) :
  req_fcmToken req = JStr tok ->
  String.prefix "ExponentPushToken[" tok = true ->
  truthy (req_latitude req) = true ->
  truthy (req_longitude req) = true ->
  let grown := match Map_get tok (userStore st) with
               | Some _ => Map_size (userStore st)
               | None => S (Map_size (userStore st))
               end in
  Map_size (userStore (snd (register req st))) = grown
  /\ Map_size (userStore (snd (update_location req st))) = grown.
Proof.
  intros Htok Hpre Hlat Hlon grown.
  assert (Hne : tok <> "") by (eapply prefix_nonempty; [|exact Hpre]; done).
  assert (Hm : missing_fields req = false).
  { apply missing_fields_false. rewrite Htok; cbn.
    by apply String.eqb_neq in Hne as ->. }
  unfold register, update_location, alloc. rewrite Hm, Htok, Hpre.
  cbn [negb snd userStore].
  split.
  { destruct (prints (req_latitude req) && prints (req_longitude req));
      apply Map_set_size. }
  subst grown. destruct (Map_get tok (userStore st)) eqn:Hg; cbn [snd userStore]; [done|].
  by rewrite Map_set_size, Hg.
Qed.

Lemma accepted_request_size_witness :
  Map_size (userStore (snd (register demo_request demo_swept))) = 1
  /\ Map_size (userStore (snd (update_location other_request demo_swept))) = 2.
Proof.
  split.
  - exact (proj1 (accepted_request_size demo_request demo_swept demo_token
                    eq_refl eq_refl eq_refl eq_refl)).
  - exact (proj2 (accepted_request_size other_request demo_swept other_token
                    eq_refl eq_refl eq_refl eq_refl)).
Defined.

(** ** Invariants of the store *)

Lemma expo_tokens_empty : expo_tokens empty_state.
Proof. intros k r Hin. by apply not_elem_of_nil in Hin. Qed.

Lemma expo_tokens_set_new (k : string) (u : User) (st : State) :
  expo_tokens st ->
  String.prefix "ExponentPushToken[" k = true ->
  fcmToken u = k ->
  expo_tokens {| userStore := Map_set k (alloc u (heap st)).1 (userStore st);
                 heap := (alloc u (heap st)).2 |}.
Proof.
  intros H Hp Hf k' r' Hin. unfold alloc in *; cbn [userStore heap fst snd] in *.
  apply Map_set_elem_of in Hin as [[= -> ->]|Hin].
  - split; [done|]. exists u. split; [|done].
    by rewrite lookup_app_r, Nat.sub_diag.
  - destruct (H k' r' Hin) as (Hp' & u' & Hu' & Hf'). split; [done|].
    exists u'. split; [by apply lookup_app_l_Some | done].
Qed.

Lemma expo_tokens_shape (keys : list string) (c c' : Config) :
  sweep_shape keys c c' -> expo_tokens (fst c) -> expo_tokens (fst c').
Proof.
  intros (Hsub & Hlen & Hheap & _) H k r Hin.
  destruct (H k r (elem_of_sublist _ _ _ Hin Hsub)) as (Hp & u & Hu & Hf).
  split; [done|].
  assert (Hlt : r < length (heap c'.1)).
  { rewrite Hlen. by eapply lookup_lt_Some. }
  apply lookup_lt_is_Some_2 in Hlt as (u' & Hu').
  destruct (Hheap r u' Hu') as (u0 & Hu0 & Hsame & _).
  exists u'. split; [done|]. congruence.
Qed.

(** In the Expo backend every key of the store starts with
    [ExponentPushToken[] and holds an object whose [fcmToken] is that key:
    the store starts that way (it is empty) and [/register],
    [/update-location] and the sweep keep it that way. *)
Theorem expo_token_invariant (req : Body) (w : World) (st : State)
    (tr : list Event) :
  expo_tokens st ->
  expo_tokens (snd (register req st))
  /\ expo_tokens (snd (update_location req st))
  /\ expo_tokens (fst (checkAllUsers w (st, tr))).
Proof.
  intros H. split; [|split].
  - unfold register. destruct (missing_fields req); [done|].
    destruct (req_fcmToken req) as [| | | |tok|]; try done.
    destruct (String.prefix "ExponentPushToken[" tok) eqn:Hp; [|done].
    destruct (prints (req_latitude req) && prints (req_longitude req));
      by apply expo_tokens_set_new.
  - unfold update_location. destruct (missing_fields req); [done|].
    destruct (req_fcmToken req) as [| | | |tok|]; try done.
    destruct (Map_get tok (userStore st)) as [user|].
    + intros k r Hin. cbn [snd userStore heap] in *.
      destruct (H k r Hin) as (Hp & u & Hu & Hf). split; [done|].
      destruct (decide (user = r)) as [->|Hne].
      * eexists. split; [by rewrite list_lookup_alter_eq, Hu | done].
      * exists u. split; [by rewrite list_lookup_alter_ne | done].
    + destruct (String.prefix "ExponentPushToken[" tok) eqn:Hp; [|done].
      by apply expo_tokens_set_new.
  - eapply (expo_tokens_shape _ (st, tr)); [apply checkAllUsers_shape | done].
Qed.

Lemma expo_token_invariant_witness :
  expo_tokens demo_registered
  /\ expo_tokens (snd (update_location demo_request empty_state))
  /\ expo_tokens (fst (checkAllUsers hazy_world (empty_state, []))).
Proof.
  exact (expo_token_invariant demo_request hazy_world empty_state [] expo_tokens_empty).
Defined.

(** Every weather request and every push of a sweep is made on behalf of a
    token that starts with [ExponentPushToken[]. *)
Theorem sweep_calls_only_expo_tokens (w : World) (st : State) (tr : list Event)
    (evs : list Event) :
  expo_tokens st ->
  snd (checkAllUsers w (st, tr)) = tr ++ evs ->
  Forall (fun e => String.prefix "ExponentPushToken[" (event_user e) = true) evs.
Proof.
  intros H Htr.
  destruct (checkAllUsers_shape w (st, tr)) as (_ & _ & _ & evs' & Htr' & Hev).
  cbn [fst snd] in *. rewrite Htr in Htr'. apply app_inv_head in Htr'. subst evs'.
  eapply Forall_impl; [exact Hev|]. intros e He. cbn in He.
  apply list_elem_of_fmap in He as ([k r] & -> & Hin). by destruct (H k r Hin).
Qed.

Lemma sweep_calls_only_expo_tokens_witness :
  Forall (fun e => String.prefix "ExponentPushToken[" (event_user e) = true)
    (snd (checkAllUsers stormy_disowning_world (demo_registered, []))).
Proof.
  apply (sweep_calls_only_expo_tokens stormy_disowning_world demo_registered []).
  - apply (expo_tokens_set_new demo_token
             {| fcmToken := demo_token;
                latitude := JNum (285 # 10);
                longitude := JNum (772 # 10);
                appOpen := JBool false;
                lastAlertedTypes := [] |} empty_state expo_tokens_empty);
      reflexivity.
  - reflexivity.
Defined.

(** No two tokens share an object and every entry has its object: the store
    starts that way and [/register], [/update-location] and the sweep keep it
    that way, so a registered token is always found with a record. *)
Theorem store_invariant_kept (req : Body) (w : World) (st : State)
    (tr : list Event) :
  wf_store st ->
  wf_store (snd (register req st))
  /\ wf_store (snd (update_location req st))
  /\ wf_store (fst (checkAllUsers w (st, tr)))
  /\ forall k : string,
       is_Some (Map_get k (userStore st)) -> is_Some (get k st).
Proof.
  intros Hwf. split; [by apply wf_store_register|].
  split; [by apply wf_store_update_location|].
  split; [by apply (wf_store_checkAllUsers w (st, tr))|].
  intros k [r Hr]. unfold get. rewrite Hr. by apply (wf_store_lookup st k r).
Qed.

Lemma store_invariant_kept_witness :
  wf_store demo_registered
  /\ wf_store (snd (update_location demo_request empty_state))
  /\ wf_store (fst (checkAllUsers hazy_world (empty_state, [])))
  /\ forall k : string,
       is_Some (Map_get k (userStore empty_state)) -> is_Some (get k empty_state).
Proof.
  exact (store_invariant_kept demo_request hazy_world empty_state [] wf_store_empty).
Defined.

(** * The trigger route *)

(** [/check] runs the sweep exactly when the [secret] parameter is a string
    equal to [CRON_SECRET], or when both are missing: with the variable not
    set, a request without the parameter is let through.  Otherwise it
    answers 401, makes no call and leaves the store alone.  The count it
    reports is the number of devices left after the sweep, at most the
    number registered before it. *)
Theorem check_route (CRON_SECRET : option string) (secret : JsVal) (w : World)
    (st : State) (tr : list Event) :
  let authorised :=
    match secret, CRON_SECRET with
    | JStr s, Some e => bool_decide (s = e)
    | JUndefined, None => true
    | _, _ => false
    end in
  check CRON_SECRET secret w (st, tr)
  = (if authorised
     then (Checked (Map_size (userStore (fst (checkAllUsers w (st, tr))))),
           checkAllUsers w (st, tr))
     else (Unauthorized, (st, tr)))
  /\ Map_size (userStore (fst (checkAllUsers w (st, tr)))) <= Map_size (userStore st).
Proof.
  cbn zeta. split.
  - unfold check, strict_neq.
    destruct secret as [| | | |s|], CRON_SECRET as [e|]; try reflexivity.
    destruct (String.eqb_spec s e) as [->|Hne].
    + by rewrite bool_decide_eq_true_2.
    + by rewrite bool_decide_eq_false_2.
  - destruct (checkAllUsers_shape w (st, tr)) as (Hsub & _).
    by apply sublist_length.
Qed.

(** * Further properties of the Firebase backend *)

Lemma legacy_update_location_known_witness :
  fst (Legacy.update_location
         {| req_fcmToken := JStr demo_token; req_latitude := JUndefined;
            req_longitude := JNum 0; req_appOpen := JUndefined |} demo_swept)
  = Success None
  /\ get demo_token
       (snd (Legacy.update_location
               {| req_fcmToken := JStr demo_token; req_latitude := JUndefined;
                  req_longitude := JNum 0; req_appOpen := JUndefined |} demo_swept))
     = Some {| fcmToken := demo_token;
               latitude := JUndefined;
               longitude := JNum 0;
               appOpen := JBool false;
               lastAlertedTypes := ["AirQuality_danger"] |}.
Proof.
  apply (legacy_update_location_known
           {| req_fcmToken := JStr demo_token; req_latitude := JUndefined;
              req_longitude := JNum 0; req_appOpen := JUndefined |}
           demo_swept demo_token
           {| fcmToken := demo_token;
              latitude := JNum (285 # 10);
              longitude := JNum (772 # 10);
              appOpen := JBool false;
              lastAlertedTypes := ["AirQuality_danger"] |});
    [reflexivity | discriminate | reflexivity].
Defined.

(** [/update-location] of the Firebase backend answers 404 and stores
    nothing when the token is missing or otherwise falsy, and when it is a
    string that is not registered: a location update never creates a
    device. *)
Theorem legacy_update_location_rejects (req : Body) (st : State) :
  truthy (req_fcmToken req) = false
  \/ (exists tok : string,
        req_fcmToken req = JStr tok /\ Map_get tok (userStore st) = None) ->
  Legacy.update_location req st = (Status404 "Device not registered", st).
Proof.
  intros [Hf | (tok & Htok & Habs)]; unfold Legacy.update_location.
  - destruct (req_fcmToken req) as [| | | |tok|]; try reflexivity.
    by rewrite Hf.
  - rewrite Htok, Habs. by destruct (negb (truthy (JStr tok))).
Qed.

Lemma legacy_update_location_rejects_witness :
  Legacy.update_location other_request demo_swept
  = (Status404 "Device not registered", demo_swept)
  /\ Legacy.update_location
       {| req_fcmToken := JUndefined; req_latitude := JNum 1;
          req_longitude := JNum 1; req_appOpen := JUndefined |} demo_swept
     = (Status404 "Device not registered", demo_swept).
Proof.
  split.
  - apply legacy_update_location_rejects. right. by exists other_token.
  - apply legacy_update_location_rejects. by left.
Defined.

Lemma legacy_register_stores_fresh_witness :
  (exists st' : State,
     Legacy.register
       {| req_fcmToken := JStr "not-an-expo-token"; req_latitude := JNum 1;
          req_longitude := JNum 1; req_appOpen := JUndefined |} demo_swept
     = Some (Success (Some "Device registered for alerts"), st')
     /\ get "not-an-expo-token" st'
        = Some {| fcmToken := "not-an-expo-token";
                  latitude := JNum 1;
                  longitude := JNum 1;
                  appOpen := JUndefined;
                  lastAlertedTypes := [] |})
  /\ (exists st' : State,
        Legacy.register
          {| req_fcmToken := JStr "not-an-expo-token"; req_latitude := JObj false;
             req_longitude := JNum 1; req_appOpen := JUndefined |} demo_swept
        = Some (Throws, st')
        /\ get "not-an-expo-token" st'
           = Some {| fcmToken := "not-an-expo-token";
                     latitude := JObj false;
                     longitude := JNum 1;
                     appOpen := JUndefined;
                     lastAlertedTypes := [] |}).
Proof.
  split.
  - apply (legacy_register_stores_fresh
             {| req_fcmToken := JStr "not-an-expo-token"; req_latitude := JNum 1;
                req_longitude := JNum 1; req_appOpen := JUndefined |}
             demo_swept "not-an-expo-token"); reflexivity.
  - apply (legacy_register_stores_fresh
             {| req_fcmToken := JStr "not-an-expo-token"; req_latitude := JObj false;
                req_longitude := JNum 1; req_appOpen := JUndefined |}
             demo_swept "not-an-expo-token"); reflexivity.
Defined.



(** * Location updates and the sweep *)

(** A location update that reports the app as open silences the next sweep
    for that device: no weather request and no push is made for it, and it
    keeps the alerted types it had, with the new location. *)
Theorem open_app_update_silences_sweep (w : World) (req : Body) (st : State)
    (tr : list Event) (tok : string) (u : User) (evs : list Event) :
  wf_store st ->
  req_fcmToken req = JStr tok ->
  tok <> "" ->
  truthy (req_latitude req) = true ->
  truthy (req_longitude req) = true ->
  truthy (req_appOpen req) = true ->
  get tok st = Some u ->
  snd (checkAllUsers w (snd (update_location req st), tr)) = tr ++ evs ->
  user_events tok evs = []
  /\ get tok (fst (checkAllUsers w (snd (update_location req st), tr)))
     = Some {| fcmToken := fcmToken u;
               latitude := req_latitude req;
               longitude := req_longitude req;
               appOpen := req_appOpen req;
               lastAlertedTypes := lastAlertedTypes u |}.
Proof.
  intros Hwf Htok Hne Hlat Hlon Hopen Hget Htr.
  destruct (update_location_present req st tok u Htok Hne Hlat Hlon Hget)
    as (_ & _ & Hget').
  assert (Hco : coalesce (req_appOpen req) (JBool false) = req_appOpen req).
  { unfold coalesce. by destruct (req_appOpen req). }
  rewrite Hco in Hget'.
  destruct (get_inv _ _ _ Hget') as (r & Hr & Hu).
  destruct (sweep_user_outcome w _ tr tok r _ (wf_store_update_location req st Hwf) Hr Hu)
    as (evs' & Htr' & Hout).
  rewrite Htr in Htr'. apply app_inv_head in Htr'. subst evs'.
  cbn zeta in Hout. cbn [appOpen] in Hout. rewrite Hopen in Hout.
  destruct Hout as (Hev & Hm & Hh). split; [exact Hev|].
  unfold get. by rewrite Hm.
Qed.

Lemma open_app_update_silences_sweep_witness :
  user_events demo_token
    (snd (checkAllUsers stormy_disowning_world
            (snd (update_location
                    {| req_fcmToken := JStr demo_token;
                       req_latitude := JNum (407 # 10);
                       req_longitude := JNum (-740 # 10);
                       req_appOpen := JBool true |} demo_swept), [])))
  = []
  /\ get demo_token
       (fst (checkAllUsers stormy_disowning_world
               (snd (update_location
                       {| req_fcmToken := JStr demo_token;
                          req_latitude := JNum (407 # 10);
                          req_longitude := JNum (-740 # 10);
                          req_appOpen := JBool true |} demo_swept), [])))
     = Some {| fcmToken := demo_token;
               latitude := JNum (407 # 10);
               longitude := JNum (-740 # 10);
               appOpen := JBool true;
               lastAlertedTypes := ["AirQuality_danger"] |}.
Proof.
  apply (open_app_update_silences_sweep stormy_disowning_world
           {| req_fcmToken := JStr demo_token;
              req_latitude := JNum (407 # 10);
              req_longitude := JNum (-740 # 10);
              req_appOpen := JBool true |}
           demo_swept [] demo_token
           {| fcmToken := demo_token;
              latitude := JNum (285 # 10);
              longitude := JNum (772 # 10);
              appOpen := JBool false;
              lastAlertedTypes := ["AirQuality_danger"] |});
    try reflexivity; try discriminate.
  apply (wf_store_checkAllUsers hazy_world (demo_registered, [])).
  apply wf_store_register, wf_store_empty.
Defined.

(** One turn of the Firebase loop, for a token that is a string.  There is no
    [appOpen] test.  When a coordinate of the device does not print, or the
    weather request fails, nothing is sent and the store is as it was.  When
    the request returns, the new alerts are sent, each once and in the order
    of the engine; [lastAlertedTypes] of the object the loop holds becomes
    the types of the severe and danger alerts; and afterwards the token is
    registered exactly when no send was rejected with
    [messaging/invalid-registration-token] or
    [messaging/registration-token-not-registered]. *)
Theorem legacy_turn_outcome (w : Legacy.World) (st : State) (tr : list Event)
    (k : string) (r : ref) (u : User) :
  Map_get k (userStore st) = Some r ->
  heap st !! r = Some u ->
  exists (reply : GetReply) (sends : list Event),
    snd (Legacy.check_user w k r (st, tr))
    = tr ++ WeatherGet k (latitude u) (longitude u) reply :: sends
    /\ reply = (if prints (latitude u) && prints (longitude u)
                then Legacy.weather w tr (latitude u) (longitude u) else GetThrows)
    /\ match reply with
       | GetThrows => sends = [] /\ fst (Legacy.check_user w k r (st, tr)) = st
       | GetReturns data =>
           Forall2 (is_send k) sends
             (fst (reconcile (evaluateRisk data) (lastAlertedTypes u)))
           /\ heap (fst (Legacy.check_user w k r (st, tr))) !! r
              = Some (set_lastAlertedTypes
                        (List.map type
                           (List.filter is_severe_or_danger (evaluateRisk data))) u)
           /\ get k (fst (Legacy.check_user w k r (st, tr)))
              = (if existsb reply_invalid sends then None
                 else Some (set_lastAlertedTypes
                              (List.map type
                                 (List.filter is_severe_or_danger (evaluateRisk data)))
                              u))
       end.
Proof.
  intros Hr Hu.
  destruct (legacy_check_user_spec w k r st tr u Hu) as (reply & sends & Hreply & Htr & Hst).
  exists reply, sends. split; [exact Htr | split; [exact Hreply|]].
  destruct reply as [|data]; [exact Hst|].
  destruct Hst as [Hsends ->]. split; [exact Hsends|].
  unfold get. cbn [userStore heap]. rewrite list_lookup_alter_eq, Hu.
  split; [reflexivity|].
  destruct (existsb reply_invalid sends).
  - by rewrite Map_get_delete_eq.
  - by rewrite Hr, list_lookup_alter_eq, Hu.
Qed.

Lemma legacy_turn_outcome_witness :
  exists (reply : GetReply) (sends : list Event),
    snd (Legacy.check_user legacy_hazy_world demo_token 0 (legacy_demo_registered, []))
    = [] ++ WeatherGet demo_token (JNum (285 # 10)) (JNum (772 # 10)) reply :: sends
    /\ reply
       = GetReturns (snapshot (Some 60%Q) (Some 1%Q) (Some 10%Q) (Some 10%Q) None)
    /\ match reply with
       | GetThrows =>
           sends = []
           /\ fst (Legacy.check_user legacy_hazy_world demo_token 0
                     (legacy_demo_registered, []))
              = legacy_demo_registered
       | GetReturns data =>
           Forall2 (is_send demo_token) sends (fst (reconcile (evaluateRisk data) []))
           /\ heap (fst (Legacy.check_user legacy_hazy_world demo_token 0
                           (legacy_demo_registered, []))) !! 0
              = Some (set_lastAlertedTypes
                        (List.map type
                           (List.filter is_severe_or_danger (evaluateRisk data)))
                        {| fcmToken := demo_token;
                           latitude := JNum (285 # 10);
                           longitude := JNum (772 # 10);
                           appOpen := JUndefined;
                           lastAlertedTypes := [] |})
           /\ get demo_token
                (fst (Legacy.check_user legacy_hazy_world demo_token 0
                        (legacy_demo_registered, [])))
              = (if existsb reply_invalid sends then None
                 else Some (set_lastAlertedTypes
                              (List.map type
                                 (List.filter is_severe_or_danger (evaluateRisk data)))
                              {| fcmToken := demo_token;
                                 latitude := JNum (285 # 10);
                                 longitude := JNum (772 # 10);
                                 appOpen := JUndefined;
                                 lastAlertedTypes := [] |}))
       end.
Proof.
  exact (legacy_turn_outcome legacy_hazy_world legacy_demo_registered [] demo_token 0
           {| fcmToken := demo_token;
              latitude := JNum (285 # 10);
              longitude := JNum (772 # 10);
              appOpen := JUndefined;
              lastAlertedTypes := [] |} eq_refl eq_refl).
Defined.
